(** * Shallow embedding of the dashboard backend (dh.py)

    The backend keeps two process-wide objects, [manager] (the WebSocket
    registry) and [dashboard_data] (bounded histories and counters), and a
    poller that feeds them.  Python dict objects are shared by reference, so
    the model keeps an explicit store of dict objects; exceptions leave the
    store as it was when they were raised. *)

From Stdlib Require Import ZArith QArith Qcanon Lia.
From stdpp Require Import base decidable option list strings gmap sorting.

(** ** Values, records and Python containers *)

(** A JSON value as Python sees it after [response.json()].  Numbers are
    compared by numeric value ([1 == 1.0]), hence one constructor over
    canonical rationals; a JSON boolean is the number it equals in Python
    ([True == 1], with the same hash).  A string in ISO-8601 datetime format
    is carried as the instant it denotes, in microseconds: [isoformat] and
    [fromisoformat] are inverse to each other on these.  A JSON array or
    object (a Python list or dict) is carried by its canonical JSON text:
    two of them are equal in Python exactly when their texts are. *)
Inductive value : Type :=
  | VNull
  | VNum (q : Qc)
  | VStr (s : string)
  | VTime (t : Z)
  | VNested (json : string).

#[global] Instance Qc_eq_decision : EqDecision Qc := Qc_eq_dec.

#[global] Instance value_eq_dec : EqDecision value.
Proof. solve_decision. Defined.

(** A JSON object: a Python dict with string keys.  Dict equality ignores
    insertion order, which is equality of finite maps. *)
Abbreviation record := (gmap string value).

(** Addresses of dict objects, and WebSocket objects (compared by identity). *)
Abbreviation loc := nat (only parsing).
Abbreviation conn := nat (only parsing).

Definition num (z : Z) : value := VNum (Q2Qc (inject_Z z)).

(** Lists and dicts cannot be dict keys: [hash] raises [TypeError]. *)
Definition hashable (v : value) : bool :=
  match v with
  | VNested _ => false
  | _ => true
  end.

(** *** Slices *)

(** Python clamps a slice bound [i] on a sequence of length [len]: a
    negative bound counts from the end. *)
Definition slice_bound (len : nat) (i : Z) : nat :=
  if (i <? 0)%Z then Z.to_nat (Z.max 0 (Z.of_nat len + i))
  else Z.to_nat (Z.min i (Z.of_nat len)).

(** [l[i:]] *)
Definition slice_from {A} (i : Z) (l : list A) : list A :=
  drop (slice_bound (length l) i) l.

(** [l[:i]] *)
Definition slice_to {A} (i : Z) (l : list A) : list A :=
  take (slice_bound (length l) i) l.

(** *** deque(maxlen=n).append *)

Definition deque_append {A} (maxlen : nat) (x : A) (d : list A) : list A :=
  let d' := d ++ [x] in
  if decide (maxlen < length d') then drop 1 d' else d'.

(** *** Insertion-ordered dicts with a default factory *)

Section odict.
Context {K V : Type} `{EqDecision K}.

Fixpoint od_get (k : K) (d : list (K * V)) : option V :=
  match d with
  | [] => None
  | (k', v) :: d' => if decide (k = k') then Some v else od_get k d'
  end.

(** [d[k] = f(d[k])] on a defaultdict: a missing key is first inserted,
    at the end, with the factory's value. *)
Fixpoint dd_alter (dflt : V) (f : V -> V) (k : K) (d : list (K * V))
  : list (K * V) :=
  match d with
  | [] => [(k, f dflt)]
  | (k', v) :: d' =>
      if decide (k = k') then (k', f v) :: d'
      else (k', v) :: dd_alter dflt f k d'
  end.
End odict.

(** *** sorted(items, key=..., reverse=True) *)

(** Python's sort is stable, also with [reverse=True]: items with equal
    keys keep their original order. *)
Section sorted.
Context {A : Type} (key : A -> Z).

Fixpoint insert_desc (x : A) (l : list A) : list A :=
  match l with
  | [] => [x]
  | y :: l' =>
      if (key x <? key y)%Z then y :: insert_desc x l' else x :: l
  end.

Definition sorted_desc (l : list A) : list A :=
  foldr insert_desc [] l.
End sorted.

(** The order of a descending ranking by [key]. *)
Definition desc {A} (key : A -> Z) (x y : A) : Prop := (key y <= key x)%Z.

(** *** list.remove *)

(** Removes the first occurrence; [None] stands for the [ValueError] raised
    when there is none. *)
Fixpoint list_remove {A} `{EqDecision A} (x : A) (l : list A)
  : option (list A) :=
  match l with
  | [] => None
  | y :: l' =>
      if decide (x = y) then Some l'
      else match list_remove x l' with
           | Some r => Some (y :: r)
           | None => None
           end
  end.

(** ** Program state *)

Record IPStat := mkIPStat {
  count : Z;
  last_seen : option Z
}.

Record TrafficSample := mkTrafficSample {
  timestamp : Z;
  total_requests : Z;
  anomaly_count : Z;
  normal_count : Z
}.

(** [anomaly_history] holds references to dict objects, not copies. *)
Record DashboardData := mkDashboardData {
  anomaly_history : list loc;
  traffic_stats : list TrafficSample;
  ip_stats : list (value * IPStat);
  protocol_stats : list (value * Z);
  hourly_stats : list (Z * Z)
}.

Record ConnectionManager := mkConnectionManager {
  active_connections : list conn
}.

(** What [json.dumps] makes of [{"type": ..., "data": anomaly}]: the
    contents of the referenced dict at serialisation time. *)
Record frame := mkFrame {
  frame_type : string;
  frame_data : record
}.

#[global] Instance frame_eq_dec : EqDecision frame.
Proof. solve_decision. Defined.

Record World := mkWorld {
  heap : list record;            (* dict objects, by address *)
  ticks : nat;                   (* calls of datetime.now() so far *)
  bcasts : nat;                  (* calls of broadcast so far *)
  wire : list (conn * frame);    (* text frames delivered, oldest first *)
  manager : ConnectionManager;
  dashboard_data : DashboardData
}.

Definition DashboardData_init : DashboardData :=
  mkDashboardData [] [] [] [] [].

Definition World_init : World :=
  mkWorld [] 0 0 [] (mkConnectionManager []) DashboardData_init.

(** ** Exceptions and the state monad *)

(** [SendError] is whatever [send_text] raises on a broken connection,
    [AcceptError] whatever [accept] raises on a failed handshake.
    [DanglingRef] is not a Python exception: it marks an address without an
    object, which no run of the program produces. *)
Inductive exn : Type :=
  | KeyError
  | ValueError
  | TypeError
  | SendError
  | AcceptError
  | DanglingRef.

#[global] Instance exn_eq_dec : EqDecision exn.
Proof. solve_decision. Defined.

Inductive Result (A : Type) : Type :=
  | Ok (a : A)
  | Raise (e : exn).
Arguments Ok {A} a.
Arguments Raise {A} e.

(** The state is returned also when an exception is raised: mutations made
    before the raise stay. *)
Definition M (A : Type) : Type := World -> Result A * World.

Definition ret {A} (a : A) : M A := fun w => (Ok a, w).

Definition bind {A B} (c : M A) (k : A -> M B) : M B :=
  fun w =>
    match c w with
    | (Ok a, w') => k a w'
    | (Raise e, w') => (Raise e, w')
    end.

Definition raise {A} (e : exn) : M A := fun w => (Raise e, w).

Definition gets {A} (f : World -> A) : M A := fun w => (Ok (f w), w).

Definition modify (f : World -> World) : M unit := fun w => (Ok tt, f w).

(** [try: c except Exception: h] *)
Definition try_except {A} (c : M A) (h : exn -> M A) : M A :=
  fun w =>
    match c w with
    | (Ok a, w') => (Ok a, w')
    | (Raise e, w') => h e w'
    end.

(** The monad is registered with the [x ← c; k] and [c ;; k] notations. *)
#[global] Instance M_ret : MRet M := @ret.
#[global] Instance M_bind : MBind M := fun A B k c => bind c k.

(** [for x in xs: body(x)] *)
Fixpoint for_each {A} (xs : list A) (body : A -> M unit) : M unit :=
  match xs with
  | [] => ret tt
  | x :: xs' => body x ;; for_each xs' body
  end.

Definition with_heap (f : list record -> list record) (w : World) : World :=
  mkWorld (f (heap w)) (ticks w) (bcasts w) (wire w) (manager w)
          (dashboard_data w).

Definition with_wire (f : list (conn * frame) -> list (conn * frame))
  (w : World) : World :=
  mkWorld (heap w) (ticks w) (bcasts w) (f (wire w)) (manager w)
          (dashboard_data w).

Definition with_connections (f : list conn -> list conn) (w : World) : World :=
  mkWorld (heap w) (ticks w) (bcasts w) (wire w)
          (mkConnectionManager (f (active_connections (manager w))))
          (dashboard_data w).

Definition with_data (f : DashboardData -> DashboardData) (w : World)
  : World :=
  mkWorld (heap w) (ticks w) (bcasts w) (wire w) (manager w)
          (f (dashboard_data w)).

Definition with_anomaly_history (f : list loc -> list loc)
  (d : DashboardData) : DashboardData :=
  mkDashboardData (f (anomaly_history d)) (traffic_stats d) (ip_stats d)
                  (protocol_stats d) (hourly_stats d).

Definition with_traffic_stats (f : list TrafficSample -> list TrafficSample)
  (d : DashboardData) : DashboardData :=
  mkDashboardData (anomaly_history d) (f (traffic_stats d)) (ip_stats d)
                  (protocol_stats d) (hourly_stats d).

Definition with_ip_stats (f : list (value * IPStat) -> list (value * IPStat))
  (d : DashboardData) : DashboardData :=
  mkDashboardData (anomaly_history d) (traffic_stats d) (f (ip_stats d))
                  (protocol_stats d) (hourly_stats d).

Definition with_protocol_stats (f : list (value * Z) -> list (value * Z))
  (d : DashboardData) : DashboardData :=
  mkDashboardData (anomaly_history d) (traffic_stats d) (ip_stats d)
                  (f (protocol_stats d)) (hourly_stats d).

Definition with_hourly_stats (f : list (Z * Z) -> list (Z * Z))
  (d : DashboardData) : DashboardData :=
  mkDashboardData (anomaly_history d) (traffic_stats d) (ip_stats d)
                  (protocol_stats d) (f (hourly_stats d)).

Definition tick (w : World) : World :=
  mkWorld (heap w) (S (ticks w)) (bcasts w) (wire w) (manager w)
          (dashboard_data w).

Definition next_broadcast (w : World) : World :=
  mkWorld (heap w) (ticks w) (S (bcasts w)) (wire w) (manager w)
          (dashboard_data w).

(** Reading and writing dict objects through their address. *)
Definition deref (a : loc) : M record :=
  fun w =>
    match heap w !! a with
    | Some r => (Ok r, w)
    | None => (Raise DanglingRef, w)
    end.

(** [a[k] = v] *)
Definition dict_setitem (a : loc) (k : string) (v : value) : M unit :=
  r ← deref a;
  modify (with_heap (fun h => <[a := <[k := v]> r]> h)).

(** [a.get(k, dflt)] *)
Definition dict_get (a : loc) (k : string) (dflt : value) : M value :=
  r ← deref a;
  ret (default dflt (r !! k)).

(** [a[k]] *)
Definition dict_getitem (a : loc) (k : string) : M value :=
  r ← deref a;
  match r !! k with
  | Some v => ret v
  | None => raise KeyError
  end.

(** A dict object freshly built by the JSON parser. *)
Definition alloc (r : record) : M loc :=
  fun w => (Ok (length (heap w)), with_heap (fun h => h ++ [r]) w).

Fixpoint map_m {A B} (f : A -> M B) (xs : list A) : M (list B) :=
  match xs with
  | [] => ret []
  | x :: xs' => y ← f x; ys ← map_m f xs'; ret (y :: ys)
  end.

(** [[x for x in xs if p(x)]] *)
Fixpoint filter_m {A} (p : A -> M bool) (xs : list A) : M (list A) :=
  match xs with
  | [] => ret []
  | x :: xs' =>
      b ← p x; ys ← filter_m p xs'; ret (if b : bool then x :: ys else ys)
  end.

(** ** The program *)

Definition hour_us : Z := 3600000000.
Definition minute_us : Z := 60000000.

(** [strftime('%H:00')]: the hour of the day, as the key of [hourly_stats]. *)
Definition hour_bucket (t : Z) : Z := ((t `div` hour_us) `mod` 24)%Z.

(** [datetime.fromisoformat(v)] *)
Definition fromisoformat (v : value) : M Z :=
  match v with
  | VTime t => ret t
  | VStr _ => raise ValueError
  | _ => raise TypeError
  end.

(** [{"type": ..., "data": anomaly}], the data being a reference. *)
Record message := mkMessage {
  msg_type : string;
  msg_data : loc
}.

Definition json_dumps (m : message) : M frame :=
  r ← deref (msg_data m);
  ret (mkFrame (msg_type m) r).

Record Snapshot := mkSnapshot {
  total_anomalies : nat;
  recent_anomalies_count : nat;
  top_attacking_ips : list (value * Z);
  protocol_distribution : list (value * Z);
  traffic_trend : list TrafficSample;
  recent_anomalies : list loc;
  hourly_distribution : list (Z * Z)
}.

Record TopIp := mkTopIp {
  ip : value;
  ip_count : Z;
  ip_last_seen : option Z
}.

(** [hash(k)], the first thing a dict subscript [d[k]] does. *)
Definition check_hashable (k : value) : M unit :=
  if hashable k then ret tt else raise TypeError.

(** [await websocket.accept()]; [accepted] is the outcome of the
    handshake. *)
Definition accept (accepted : bool) : M unit :=
  if accepted then ret tt else raise AcceptError.

(** What the task of another connection can do to the registry while a
    coroutine is suspended: [websocket_endpoint] registers its connection
    once the handshake is done, and removes it on [WebSocketDisconnect]. *)
Inductive peer_action : Type :=
  | PeerConnect (c : conn)
  | PeerDisconnect (c : conn).

Section Program.
(** The environment: what the [k]-th call of [datetime.now()] returns,
    and whether a send to a connection succeeds during the [k]-th
    broadcast. *)
Variable wall : nat -> Z.
Variable link_up : nat -> conn -> bool.

Definition now : M Z := fun w => (Ok (wall (ticks w)), tick w).

(** *** ConnectionManager *)

Definition connect (accepted : bool) (websocket : conn) : M unit :=
  accept accepted;;
  modify (with_connections (fun l => l ++ [websocket])).

Definition remove_connection (websocket : conn) : M unit :=
  l ← gets (fun w => active_connections (manager w));
  match list_remove websocket l with
  | Some l' => modify (with_connections (fun _ => l'))
  | None => raise ValueError
  end.

Definition disconnect (websocket : conn) : M unit :=
  remove_connection websocket.

Definition send_text (k : nat) (connection : conn) (message_str : frame)
  : M unit :=
  if link_up k connection
  then modify (with_wire (fun o => o ++ [(connection, message_str)]))
  else raise SendError.

(** [broadcast] as it runs when no other task touches the registry while
    it is suspended in a send; [broadcast_interleaved] below is the run
    with other tasks in between. *)
Definition broadcast (msg : message) : M unit :=
  k ← gets bcasts;
  modify next_broadcast;;
  copy ← gets (fun w => active_connections (manager w));
  match copy with
  | [] => ret tt
  | _ =>
      message_str ← json_dumps msg;
      for_each copy (fun connection =>
        try_except (send_text k connection message_str)
                   (fun _ => remove_connection connection))
  end.

(** The tasks of other connections that run while a coroutine is
    suspended; what they raise stays in their own task. *)
Definition yield_to (peers : list peer_action) : M unit :=
  for_each peers (fun p =>
    try_except
      match p with
      | PeerConnect c => connect true c
      | PeerDisconnect c => disconnect c
      end
      (fun _ => ret tt)).

(** The loop of [broadcast] from its [i]-th iteration on:
    [await connection.send_text(...)] suspends, and [peers i] is what
    the other tasks do before it returns or raises. *)
Fixpoint send_to_all (peers : nat -> list peer_action) (k : nat)
    (message_str : frame) (i : nat) (copy : list conn) : M unit :=
  match copy with
  | [] => ret tt
  | connection :: rest =>
      try_except (yield_to (peers i);;
                  send_text k connection message_str)
                 (fun _ => remove_connection connection);;
      send_to_all peers k message_str (S i) rest
  end.

Definition broadcast_interleaved (peers : nat -> list peer_action)
    (msg : message) : M unit :=
  k ← gets bcasts;
  modify next_broadcast;;
  copy ← gets (fun w => active_connections (manager w));
  match copy with
  | [] => ret tt
  | _ =>
      message_str ← json_dumps msg;
      send_to_all peers k message_str 0 copy
  end.

(** *** DashboardData *)

Definition add_anomaly (anomaly_data : loc) : M unit :=
  t ← now;
  dict_setitem anomaly_data "timestamp" (VTime t);;
  modify (with_data (with_anomaly_history (deque_append 1000 anomaly_data)));;
  src_ip ← dict_get anomaly_data "src_ip" (VStr "Unknown");
  check_hashable src_ip;;
  modify (with_data (with_ip_stats
    (dd_alter (mkIPStat 0 None)
              (fun s => mkIPStat (count s + 1) (last_seen s)) src_ip)));;
  t' ← now;
  modify (with_data (with_ip_stats
    (dd_alter (mkIPStat 0 None)
              (fun s => mkIPStat (count s) (Some t')) src_ip)));;
  protocol ← dict_get anomaly_data "protocol" (VStr "Unknown");
  check_hashable protocol;;
  modify (with_data (with_protocol_stats
    (dd_alter 0%Z (fun n => (n + 1)%Z) protocol)));;
  t'' ← now;
  modify (with_data (with_hourly_stats
    (dd_alter 0%Z (fun n => (n + 1)%Z) (hour_bucket t'')))).

Definition add_traffic_data (total_requests anomaly_count : Z) : M unit :=
  t ← now;
  modify (with_data (with_traffic_stats
    (deque_append 100
       (mkTrafficSample t total_requests anomaly_count
                        (total_requests - anomaly_count))))).

Definition get_dashboard_stats : M Snapshot :=
  now_ ← now;
  let last_hour := (now_ - hour_us)%Z in
  d ← gets dashboard_data;
  recent ← filter_m (fun a =>
              ts ← dict_getitem a "timestamp";
              t ← fromisoformat ts;
              ret (bool_decide (last_hour < t)%Z))
            (anomaly_history d);
  let top_ips :=
    slice_to 10 (sorted_desc snd
                   (map (fun '(ip, data) => (ip, count data))
                        (ip_stats d))) in
  ret (mkSnapshot (length (anomaly_history d))
                  (length recent)
                  top_ips
                  (protocol_stats d)
                  (slice_from (-24) (traffic_stats d))
                  (slice_from (-20) (anomaly_history d))
                  (hourly_stats d)).

(** *** Query endpoints *)

Definition get_recent_anomalies (limit : Z) : M (list loc * nat) :=
  h ← gets (fun w => anomaly_history (dashboard_data w));
  ret (slice_from (- limit) h, length h).

Definition get_top_ips (limit : Z) : M (list TopIp) :=
  s ← gets (fun w => ip_stats (dashboard_data w));
  let top_ips :=
    slice_to limit
      (sorted_desc (fun x => snd (fst x))
         (map (fun '(ip, data) => (ip, count data, last_seen data)) s)) in
  ret (map (fun '(ip, count, last_seen) => mkTopIp ip count last_seen)
           top_ips).

(** *** The poller *)

(** The loop body over one fetched candidate. *)
Definition poll_candidate (anomaly : loc) : M unit :=
  h ← gets (fun w => anomaly_history (dashboard_data w));
  copies ← map_m deref h;
  r ← deref anomaly;
  if bool_decide (r ∈ copies) then ret tt
  else
    add_anomaly anomaly;;
    broadcast (mkMessage "new_anomaly" anomaly).

(** What the [try] block does once the request returned status 200 with
    the objects of [data.get("recent", [])]. *)
Definition poll_body (payload : list record) : M unit :=
  recent_anomalies ← map_m alloc payload;
  for_each recent_anomalies poll_candidate;;
  let total_requests := (Z.of_nat (length recent_anomalies) + 100)%Z in
  flagged ← filter_m (fun a =>
               v ← dict_get a "result" VNull;
               ret (bool_decide (v = num (-1))))
             recent_anomalies;
  add_traffic_data total_requests (Z.of_nat (length flagged)).

(** One turn of the [while True] loop; [None] is a response whose status
    is not 200.  Exceptions are logged and dropped. *)
Definition poll_cycle (response : option (list record)) : M unit :=
  try_except
    match response with
    | Some payload => poll_body payload
    | None => ret tt
    end
    (fun _ => ret tt).

End Program.

(** ** Effects, runs and invariants *)

(** The record as [add_anomaly] leaves it. *)
Definition stamp (t : Z) (r : record) : record := <["timestamp" := VTime t]> r.

(** The record's [src_ip] and [protocol], or "Unknown" in their place, can
    be dict keys. *)
Definition well_keyed (r : record) : Prop :=
  hashable (default (VStr "Unknown") (r !! "src_ip")) /\
  hashable (default (VStr "Unknown") (r !! "protocol")).

#[global] Instance well_keyed_dec r : Decision (well_keyed r).
Proof. unfold well_keyed. apply _. Defined.

(** The object at [a] exists and is well keyed. *)
Definition well_keyed_at (h : list record) (a : loc) : Prop :=
  match h !! a with
  | Some r => well_keyed r
  | None => False
  end.

#[global] Instance well_keyed_at_dec h a : Decision (well_keyed_at h a).
Proof. unfold well_keyed_at. destruct (h !! a); apply _. Defined.

(** The ingestion timestamp of the object at [a], when it carries one. *)
Definition ingested_at (h : list record) (a : loc) : option Z :=
  match h !! a with
  | Some r => match r !! "timestamp" with
              | Some (VTime t) => Some t
              | _ => None
              end
  | None => None
  end.

(** The dicts behind a list of references: [[dict(a) for a in refs]]. *)
Definition contents (h : list record) (refs : list loc) : list record :=
  omap (fun a => h !! a) refs.

(** [t] lies in the hour before [now_], the bound excluded. *)
Definition within_last_hour (now_ : Z) (ot : option Z) : Prop :=
  match ot with
  | Some t => (now_ - hour_us < t)%Z
  | None => False
  end.

#[global] Instance within_last_hour_dec now_ ot :
  Decision (within_last_hour now_ ot).
Proof. destruct ot; simpl; apply _. Defined.

(** What the stored histories satisfy in every state the program reaches. *)
Record wf_data (h : list record) (d : DashboardData) : Prop := mk_wf_data {
  wf_history_bound : length (anomaly_history d) <= 1000;
  wf_traffic_bound : length (traffic_stats d) <= 100;
  wf_stamped : Forall (fun a => is_Some (ingested_at h a)) (anomaly_history d);
  wf_samples :
    Forall (fun s => normal_count s = (total_requests s - anomaly_count s)%Z)
           (traffic_stats d)
}.

Definition wf (w : World) : Prop := wf_data (heap w) (dashboard_data w).

(** An invariant kept by a computation, whether it returns or raises. *)
Definition preserves {A} (I : World -> Prop) (c : M A) : Prop :=
  forall w, I w -> I (snd (c w)).

(** The [(ip, count)] items that both rankings sort. *)
Definition ip_counts (d : DashboardData) : list (value * Z) :=
  map (fun '(ip, data) => (ip, count data)) (ip_stats d).

(** The tie-break by most recent [last_seen]: of two ranked IPs with the
    same count, the one ranked first was seen last. *)
Definition ties_by_last_seen (d : DashboardData) (top : list (value * Z))
  : Prop :=
  forall i j x y sx sy,
    i < j -> top !! i = Some x -> top !! j = Some y -> snd x = snd y ->
    od_get (fst x) (ip_stats d) = Some sx ->
    od_get (fst y) (ip_stats d) = Some sy ->
    match last_seen sx, last_seen sy with
    | Some tx, Some ty => (ty <= tx)%Z
    | _, _ => False
    end.

Section Runs.
Variable wall : nat -> Z.
Variable link_up : nat -> conn -> bool.

(** The state after [add_anomaly(a)] on an object holding [r]. *)
Definition after_add_anomaly (w : World) (a : loc) (r : record) : World :=
  let d := dashboard_data w in
  let src_ip := default (VStr "Unknown") (r !! "src_ip") in
  let protocol := default (VStr "Unknown") (r !! "protocol") in
  mkWorld (<[a := stamp (wall (ticks w)) r]> (heap w)) (3 + ticks w)
          (bcasts w) (wire w) (manager w)
    (mkDashboardData
       (deque_append 1000 a (anomaly_history d))
       (traffic_stats d)
       (dd_alter (mkIPStat 0 None)
          (fun s => mkIPStat (count s) (Some (wall (1 + ticks w)))) src_ip
          (dd_alter (mkIPStat 0 None)
             (fun s => mkIPStat (count s + 1) (last_seen s)) src_ip
             (ip_stats d)))
       (dd_alter 0%Z (fun n => (n + 1)%Z) protocol (protocol_stats d))
       (dd_alter 0%Z (fun n => (n + 1)%Z)
          (hour_bucket (wall (2 + ticks w))) (hourly_stats d))).

(** The state in which [add_anomaly(a)] raises when the [src_ip] of
    [r] is unhashable: the record is stamped and stored already. *)
Definition after_stamp (w : World) (a : loc) (r : record) : World :=
  mkWorld (<[a := stamp (wall (ticks w)) r]> (heap w)) (1 + ticks w)
          (bcasts w) (wire w) (manager w)
          (with_anomaly_history (deque_append 1000 a) (dashboard_data w)).

(** The state in which it raises when only the [protocol] is
    unhashable: [ip_stats] is updated as well. *)
Definition after_ip_update (w : World) (a : loc) (r : record) : World :=
  let d := dashboard_data w in
  let src_ip := default (VStr "Unknown") (r !! "src_ip") in
  mkWorld (<[a := stamp (wall (ticks w)) r]> (heap w)) (2 + ticks w)
          (bcasts w) (wire w) (manager w)
    (mkDashboardData
       (deque_append 1000 a (anomaly_history d))
       (traffic_stats d)
       (dd_alter (mkIPStat 0 None)
          (fun s => mkIPStat (count s) (Some (wall (1 + ticks w)))) src_ip
          (dd_alter (mkIPStat 0 None)
             (fun s => mkIPStat (count s + 1) (last_seen s)) src_ip
             (ip_stats d)))
       (protocol_stats d)
       (hourly_stats d)).

(** The calls a client of the two objects can make; [OpConnect] is a
    [connect] whose handshake succeeds, [OpRefuse] one whose handshake
    fails. *)
Inductive op : Type :=
  | OpAlloc (r : record)
  | OpConnect (c : conn)
  | OpRefuse (c : conn)
  | OpDisconnect (c : conn)
  | OpBroadcast (m : message)
  | OpAddAnomaly (a : loc)
  | OpAddTraffic (total anomalies : Z)
  | OpStats
  | OpRecent (limit : Z)
  | OpTopIps (limit : Z)
  | OpPoll (response : option (list record)).

Definition run_op (o : op) : M unit :=
  match o with
  | OpAlloc r => alloc r ;; ret tt
  | OpConnect c => connect true c
  | OpRefuse c => connect false c
  | OpDisconnect c => disconnect c
  | OpBroadcast m => broadcast link_up m
  | OpAddAnomaly a => add_anomaly wall a
  | OpAddTraffic t n => add_traffic_data wall t n
  | OpStats => get_dashboard_stats wall ;; ret tt
  | OpRecent limit => get_recent_anomalies limit ;; ret tt
  | OpTopIps limit => get_top_ips limit ;; ret tt
  | OpPoll response => poll_cycle wall link_up response
  end.

Definition run_ops (os : list op) (w : World) : World :=
  foldl (fun w o => snd (run_op o w)) w os.

Inductive reachable : World -> Prop :=
  | reachable_init : reachable World_init
  | reachable_step o w : reachable w -> reachable (snd (run_op o w)).
End Runs.

(** ** Sample data *)

(** The record of the end-to-end scenario. *)
Definition sample_record : record :=
  {[ "src_ip" := VStr "1.2.3.4"; "dst_ip" := VStr "5.6.7.8";
     "protocol" := VStr "TCP"; "score" := VNum (Q2Qc (9 # 10));
     "result" := num (-1) ]}.

(** A clock that advances one second per reading, and a network on which
    every send succeeds. *)
Definition sample_wall (k : nat) : Z := (Z.of_nat k * 1000000)%Z.
Definition sample_link (k : nat) (c : conn) : bool := true.

(** A network on which every send to connection 2 fails. *)
Definition flaky_link (k : nat) (c : conn) : bool := negb (c =? 2).

(** A clock whose readings 0, 3 and 6 are 61, 59 and 0 minutes before the
    last one. *)
Definition stats_wall (k : nat) : Z :=
  match k with
  | 0 => 0%Z
  | 3 => (2 * minute_us)%Z
  | 6 => (61 * minute_us)%Z
  | _ => minute_us
  end.

Definition record_from (src_ip : string) : record :=
  {[ "src_ip" := VStr src_ip; "protocol" := VStr "UDP" ]}.

(** Three observers and one fetched record. *)
Definition three_observers : World :=
  run_ops sample_wall flaky_link
    [OpAlloc sample_record; OpConnect 1; OpConnect 2; OpConnect 3]
    World_init.

(** 1500 dict objects, none ingested yet. *)
Definition many_events : World :=
  run_ops sample_wall sample_link (replicate 1500 (OpAlloc sample_record))
    World_init.

(** Two events, ingested at readings 0 and 3 of [stats_wall]. *)
Definition two_events : World :=
  run_ops stats_wall sample_link
    [OpAlloc sample_record; OpAlloc sample_record;
     OpAddAnomaly 0; OpAddAnomaly 1]
    World_init.

(** Counts 5, 9 and 1 for three source addresses. *)
Definition ranked_ips : World :=
  run_ops sample_wall sample_link
    ([OpAlloc (record_from "A"); OpAlloc (record_from "B");
      OpAlloc (record_from "C")]
     ++ replicate 5 (OpAddAnomaly 0) ++ replicate 9 (OpAddAnomaly 1)
     ++ [OpAddAnomaly 2])
    World_init.

(** Two source addresses seen once each, "A" before "B". *)
Definition tied_ips : World :=
  run_ops sample_wall sample_link
    [OpAlloc (record_from "A"); OpAlloc (record_from "B");
     OpAddAnomaly 0; OpAddAnomaly 1]
    World_init.

(** The endpoint of connection 2 sees its client gone and removes it while
    the first send of a broadcast is pending. *)
Definition racing_peers (i : nat) : list peer_action :=
  match i with
  | 0 => [PeerDisconnect 2]
  | _ => []
  end.

(** No other task runs during a broadcast. *)
Definition no_peers (i : nat) : list peer_action := [].

(** A fetched record whose [src_ip] is a JSON array. *)
Definition array_src_ip : World :=
  run_ops sample_wall sample_link
    [OpAlloc {[ "src_ip" := VNested "[1,2,3,4]"; "protocol" := VStr "TCP" ]}]
    World_init.

(** A fetched record whose [protocol] is a JSON object. *)
Definition object_protocol : World :=
  run_ops sample_wall sample_link
    [OpAlloc {[ "src_ip" := VStr "1.2.3.4"; "protocol" := VNested "{}" ]}]
    World_init.

(** A dict without any field. *)
Definition empty_candidate : World :=
  run_ops sample_wall sample_link [OpAlloc ∅] World_init.

(** ** Notions for the counters and the poller *)

(** The sum of a numeric field over the entries of a counter dict. *)
Definition total_of {K V} (g : V -> Z) (d : list (K * V)) : Z :=
  foldr (fun kv acc => (g (snd kv) + acc)%Z) 0%Z d.

(** The three counter dicts account for the same number of events, and the
    history holds as many of them as its bound allows. *)
Record counters_agree (d : DashboardData) : Prop := mk_counters_agree {
  agree_protocol :
    total_of id (protocol_stats d) = total_of count (ip_stats d);
  agree_hourly :
    total_of id (hourly_stats d) = total_of count (ip_stats d);
  agree_history :
    Z.of_nat (length (anomaly_history d))
    = Z.min 1000 (total_of count (ip_stats d))
}.

(** What the counters satisfy whatever the records hold: [add_anomaly]
    stores the event first and updates the IP counters before the protocol
    and hour counters, and a key that cannot be hashed stops it on the
    way. *)
Record counters_bounded (d : DashboardData) : Prop := mk_counters_bounded {
  bounded_hourly :
    total_of id (hourly_stats d) = total_of id (protocol_stats d);
  bounded_protocol :
    (total_of id (protocol_stats d) <= total_of count (ip_stats d))%Z;
  bounded_history :
    (Z.min 1000 (total_of count (ip_stats d))
     <= Z.of_nat (length (anomaly_history d)) <= 1000)%Z
}.

(** Every counter dict has one entry per key, and no entry shows the value
    of the default factory. *)
Record counters_wf (d : DashboardData) : Prop := mk_counters_wf {
  cwf_ip_keys : NoDup (map fst (ip_stats d));
  cwf_protocol_keys : NoDup (map fst (protocol_stats d));
  cwf_hourly_keys : NoDup (map fst (hourly_stats d));
  cwf_ip_seen :
    Forall (fun kv => (1 <= count (snd kv))%Z /\ is_Some (last_seen (snd kv)))
           (ip_stats d);
  cwf_protocol_pos : Forall (fun kv => (1 <= snd kv)%Z) (protocol_stats d);
  cwf_hourly_pos :
    Forall (fun kv => (0 <= fst kv < 24)%Z /\ (1 <= snd kv)%Z)
           (hourly_stats d)
}.

(** The poller's test [a.get('result') == -1] on a fetched record. *)
Definition flagged (r : record) : Prop :=
  default VNull (r !! "result") = num (-1).

#[global] Instance flagged_dec r : Decision (flagged r).
Proof. unfold flagged. apply _. Defined.

(** A stored event and a candidate that repeats it, timestamp included. *)
Definition echoed_event : World :=
  run_ops sample_wall sample_link
    [OpAlloc sample_record; OpAddAnomaly 0;
     OpAlloc (stamp 0 sample_record)]
    World_init.

(** ** Reasoning about runs *)

Ltac run := unfold mbind, M_bind, bind, ret, raise, gets, modify, try_except.

Section preserves.
Context (I : World -> Prop).

Lemma preserves_ret {A} (a : A) : preserves I (ret a).
Proof. intros w Hw. exact Hw. Qed.

Lemma preserves_raise {A} e : preserves I (@raise A e).
Proof. intros w Hw. exact Hw. Qed.

Lemma preserves_gets {A} (f : World -> A) : preserves I (gets f).
Proof. intros w Hw. exact Hw. Qed.

Lemma preserves_bind {A B} (c : M A) (k : A -> M B) :
  preserves I c -> (forall a, preserves I (k a)) -> preserves I (c ≫= k).
Proof.
  intros Hc Hk w Hw. specialize (Hc w Hw). run.
  destruct (c w) as [[a|e] w']; simpl in *; [by apply Hk | done].
Qed.

Lemma preserves_try_except {A} (c : M A) h :
  preserves I c -> (forall e, preserves I (h e)) ->
  preserves I (try_except c h).
Proof.
  intros Hc Hh w Hw. specialize (Hc w Hw). run.
  destruct (c w) as [[a|e] w']; simpl in *; [done | by apply Hh].
Qed.

Lemma preserves_for_each {A} (xs : list A) body :
  (forall x, preserves I (body x)) -> preserves I (for_each xs body).
Proof.
  intros Hb. induction xs as [|x xs IH]; simpl.
  - apply preserves_ret.
  - apply preserves_bind; auto.
Qed.

Lemma preserves_map_m {A B} (f : A -> M B) xs :
  (forall x, preserves I (f x)) -> preserves I (map_m f xs).
Proof.
  intros Hf. induction xs as [|x xs IH]; simpl.
  - apply preserves_ret.
  - apply preserves_bind; [auto|]. intros y.
    apply preserves_bind; [auto|]. intros ys. apply preserves_ret.
Qed.

Lemma preserves_filter_m {A} (p : A -> M bool) xs :
  (forall x, preserves I (p x)) -> preserves I (filter_m p xs).
Proof.
  intros Hp. induction xs as [|x xs IH]; simpl.
  - apply preserves_ret.
  - apply preserves_bind; [auto|]. intros y.
    apply preserves_bind; [auto|]. intros ys. apply preserves_ret.
Qed.

Lemma preserves_deref a : preserves I (deref a).
Proof. intros w Hw. unfold deref. by destruct (heap w !! a). Qed.

Lemma preserves_dict_get a k d : preserves I (dict_get a k d).
Proof.
  apply preserves_bind; [apply preserves_deref|].
  intros r. apply preserves_ret.
Qed.

Lemma preserves_dict_getitem a k : preserves I (dict_getitem a k).
Proof.
  apply preserves_bind; [apply preserves_deref|].
  intros r. destruct (r !! k); [apply preserves_ret | apply preserves_raise].
Qed.

Lemma preserves_fromisoformat v : preserves I (fromisoformat v).
Proof.
  destruct v; simpl; first [apply preserves_ret | apply preserves_raise].
Qed.

Lemma preserves_json_dumps m : preserves I (json_dumps m).
Proof.
  apply preserves_bind; [apply preserves_deref|].
  intros r. apply preserves_ret.
Qed.
End preserves.

(** *** Stepping through a computation *)

Lemma run_bind {A B} (c : M A) (k : A -> M B) w :
  (c ≫= k) w
  = match c w with
    | (Ok a, w') => k a w'
    | (Raise e, w') => (Raise e, w')
    end.
Proof. reflexivity. Qed.

Lemma run_bind_ok {A B} (c : M A) (k : A -> M B) w a w' :
  c w = (Ok a, w') -> (c ≫= k) w = k a w'.
Proof. intros Hc. by rewrite run_bind, Hc. Qed.

Lemma run_bind_raise {A B} (c : M A) (k : A -> M B) w e w' :
  c w = (Raise e, w') -> (c ≫= k) w = (Raise e, w').
Proof. intros Hc. by rewrite run_bind, Hc. Qed.

Lemma run_gets {A} (f : World -> A) w : gets f w = (Ok (f w), w).
Proof. reflexivity. Qed.

Lemma run_modify f w : modify f w = (Ok tt, f w).
Proof. reflexivity. Qed.

Lemma run_ret {A} (a : A) w : ret a w = (Ok a, w).
Proof. reflexivity. Qed.

Lemma run_deref a w r : heap w !! a = Some r -> deref a w = (Ok r, w).
Proof. intros Hr. unfold deref. by rewrite Hr. Qed.

Lemma for_each_cons {A} (x : A) xs body w :
  for_each (x :: xs) body w = (body x ;; for_each xs body) w.
Proof. reflexivity. Qed.

(** *** Containers *)

Lemma deque_append_full {A} n (x : A) d :
  0 < n -> length d = n -> deque_append n x d = drop 1 d ++ [x].
Proof.
  intros Hpos Hn. unfold deque_append.
  rewrite length_app. simpl.
  destruct (decide (n < length d + 1)) as [_|Hge]; [|lia].
  destruct d as [|y d]; simpl in *; [lia|].
  by rewrite drop_0.
Qed.

Lemma deque_append_room {A} n (x : A) d :
  length d < n -> deque_append n x d = d ++ [x].
Proof.
  intros Hn. unfold deque_append.
  rewrite length_app. simpl.
  destruct (decide (n < length d + 1)); [lia | done].
Qed.

Lemma deque_append_length {A} n (x : A) d :
  length d <= n -> length (deque_append n x d) <= n.
Proof.
  intros Hn. unfold deque_append.
  destruct (decide _) as [Hlt|Hge].
  - rewrite length_drop, length_app. simpl. lia.
  - lia.
Qed.

Lemma deque_append_Forall {A} (P : A -> Prop) n x d :
  Forall P d -> P x -> Forall P (deque_append n x d).
Proof.
  intros Hd Hx. unfold deque_append.
  destruct (decide _); [apply Forall_drop|]; apply Forall_app; auto.
Qed.

(** Appending one at a time keeps the last [n] of everything appended. *)
Lemma deque_append_foldl {A} n (xs d : list A) :
  0 < n -> length d <= n ->
  foldl (fun d x => deque_append n x d) d xs
  = drop (length (d ++ xs) - n) (d ++ xs).
Proof.
  intros Hpos. revert d. induction xs as [|x xs IH]; intros d Hd; simpl.
  - rewrite app_nil_r. replace (length d - n) with 0 by lia. done.
  - rewrite IH by by apply deque_append_length.
    destruct (decide (length d = n)) as [Heq|Hne].
    + rewrite deque_append_full by done.
      destruct d as [|y d]; simpl in *; [lia|]. rewrite drop_0.
      rewrite <- !app_assoc. simpl.
      rewrite !length_app. simpl.
      replace (S (length d + S (length xs)) - n) with
        (S (length d + S (length xs) - n)) by lia.
      simpl. done.
    + rewrite deque_append_room by lia.
      rewrite <- !app_assoc. done.
Qed.

Lemma list_remove_middle {A} `{EqDecision A} (x : A) l1 l2 :
  x ∉ l1 -> list_remove x (l1 ++ x :: l2) = Some (l1 ++ l2).
Proof.
  induction l1 as [|y l1 IH]; intros Hx; simpl.
  - by rewrite decide_True.
  - apply not_elem_of_cons in Hx as [Hne Hx].
    rewrite decide_False by done. by rewrite IH.
Qed.

Lemma list_remove_absent {A} `{EqDecision A} (x : A) l :
  x ∉ l -> list_remove x l = None.
Proof.
  induction l as [|y l IH]; intros Hx; simpl; [done|].
  apply not_elem_of_cons in Hx as [Hne Hx].
  rewrite decide_False by done. by rewrite IH.
Qed.

Lemma slice_from_last {A} (n : nat) (l : list A) :
  0 < n -> slice_from (- Z.of_nat n) l = drop (length l - n) l.
Proof.
  intros Hn. unfold slice_from, slice_bound.
  destruct (Z.ltb_spec (- Z.of_nat n) 0); [|lia].
  f_equal. lia.
Qed.

Lemma slice_from_zero {A} (l : list A) : slice_from 0 l = l.
Proof.
  unfold slice_from, slice_bound. simpl.
  replace (Z.to_nat _) with 0 by lia. done.
Qed.

Lemma slice_to_first {A} (n : nat) (l : list A) :
  slice_to (Z.of_nat n) l = take n l.
Proof.
  unfold slice_to, slice_bound.
  destruct (Z.ltb_spec (Z.of_nat n) 0); [lia|].
  destruct (decide (n <= length l)).
  - f_equal. lia.
  - replace (Z.to_nat _) with (length l) by lia.
    rewrite firstn_all. rewrite take_ge by lia. done.
Qed.

(** *** The store *)

Lemma ingested_at_app h r a :
  is_Some (ingested_at h a) -> ingested_at (h ++ [r]) a = ingested_at h a.
Proof.
  unfold ingested_at. intros [t Ht].
  destruct (h !! a) as [r'|] eqn:Hl; [|done].
  by rewrite (lookup_app_l_Some _ _ _ _ Hl).
Qed.

Lemma ingested_at_stamp_eq h a r t :
  h !! a = Some r -> ingested_at (<[a := stamp t r]> h) a = Some t.
Proof.
  intros Hl. unfold ingested_at, stamp.
  rewrite list_lookup_insert_eq by (eapply lookup_lt_Some; eauto).
  by rewrite lookup_insert_eq.
Qed.

Lemma ingested_at_stamp_ne h a b r t :
  a ≠ b -> ingested_at (<[a := stamp t r]> h) b = ingested_at h b.
Proof.
  intros Hne. unfold ingested_at. by rewrite list_lookup_insert_ne.
Qed.

Lemma ingested_at_stamp_is_Some h a b r t :
  h !! a = Some r -> is_Some (ingested_at h b) ->
  is_Some (ingested_at (<[a := stamp t r]> h) b).
Proof.
  intros Hl Hb. destruct (decide (a = b)) as [->|Hne].
  - rewrite (ingested_at_stamp_eq _ _ _ _ Hl). eauto.
  - by rewrite ingested_at_stamp_ne.
Qed.

(** *** Run equations and the invariant *)

Section Runs_facts.
Variable wall : nat -> Z.
Variable link_up : nat -> conn -> bool.

(** What [add_anomaly] does to an object holding [r]: it returns, or
    raises at the first dict key that is unhashable. *)
Lemma add_anomaly_outcome w a r :
  heap w !! a = Some r ->
  add_anomaly wall a w
  = if hashable (default (VStr "Unknown") (r !! "src_ip"))
    then if hashable (default (VStr "Unknown") (r !! "protocol"))
         then (Ok tt, after_add_anomaly wall w a r)
         else (Raise TypeError, after_ip_update wall w a r)
    else (Raise TypeError, after_stamp wall w a r).
Proof.
  intros Hr.
  unfold add_anomaly, dict_setitem, dict_get, deref, now, check_hashable.
  run. simpl. rewrite Hr. simpl.
  rewrite list_lookup_insert_eq by (eapply lookup_lt_Some; eauto). simpl.
  unfold stamp. rewrite !lookup_insert_ne by done.
  destruct (hashable (default (VStr "Unknown") (r !! "src_ip")));
    [|reflexivity].
  simpl.
  rewrite list_lookup_insert_eq by (eapply lookup_lt_Some; eauto). simpl.
  rewrite !lookup_insert_ne by done.
  destruct (hashable (default (VStr "Unknown") (r !! "protocol")));
    reflexivity.
Qed.

Lemma add_anomaly_run w a r :
  heap w !! a = Some r -> well_keyed r ->
  add_anomaly wall a w = (Ok tt, after_add_anomaly wall w a r).
Proof.
  intros Hr [Hs Hp]. rewrite (add_anomaly_outcome _ _ _ Hr).
  by rewrite (Is_true_true_1 _ Hs), (Is_true_true_1 _ Hp).
Qed.

Lemma add_anomaly_dangling w a :
  heap w !! a = None ->
  add_anomaly wall a w =
    (Raise DanglingRef, tick w).
Proof.
  intros Hr. unfold add_anomaly, dict_setitem, dict_get, deref, now.
  run. simpl. rewrite Hr. reflexivity.
Qed.

(** The state [add_anomaly] leaves, whatever it returns or raises. *)
Lemma add_anomaly_cases (I : World -> Prop) w a :
  (heap w !! a = None -> I (tick w)) ->
  (forall r, heap w !! a = Some r ->
     hashable (default (VStr "Unknown") (r !! "src_ip")) = false ->
     I (after_stamp wall w a r)) ->
  (forall r, heap w !! a = Some r ->
     hashable (default (VStr "Unknown") (r !! "src_ip")) = true ->
     hashable (default (VStr "Unknown") (r !! "protocol")) = false ->
     I (after_ip_update wall w a r)) ->
  (forall r, heap w !! a = Some r -> well_keyed r ->
     I (after_add_anomaly wall w a r)) ->
  I (snd (add_anomaly wall a w)).
Proof.
  intros Hnone Hsrc Hproto Hok. destruct (heap w !! a) as [r|] eqn:Hr.
  - rewrite (add_anomaly_outcome _ _ _ Hr).
    destruct (hashable (default (VStr "Unknown") (r !! "src_ip"))) eqn:Hs;
      [|by apply Hsrc].
    destruct (hashable (default (VStr "Unknown") (r !! "protocol")))
      eqn:Hp; [|by apply Hproto].
    apply Hok; [done|]. unfold well_keyed. by rewrite Hs, Hp.
  - rewrite (add_anomaly_dangling _ _ Hr). by apply Hnone.
Qed.

Lemma add_traffic_data_run w total anomalies :
  add_traffic_data wall total anomalies w =
    (Ok tt,
     with_data
       (with_traffic_stats
          (deque_append 100
             (mkTrafficSample (wall (ticks w)) total anomalies
                              (total - anomalies))))
       (tick w)).
Proof. reflexivity. Qed.

Lemma wf_after_add_anomaly w a r :
  heap w !! a = Some r -> wf w -> wf (after_add_anomaly wall w a r).
Proof.
  intros Hr [Hh Ht Hs Hn]. split; simpl; try done.
  - by apply deque_append_length.
  - apply deque_append_Forall.
    + eapply Forall_impl; [exact Hs|]. intros b Hb.
      by apply ingested_at_stamp_is_Some.
    + rewrite (ingested_at_stamp_eq _ _ _ _ Hr). eauto.
Qed.

Lemma wf_after_stamp w a r :
  heap w !! a = Some r -> wf w -> wf (after_stamp wall w a r).
Proof.
  intros Hr [Hh Ht Hs Hn]. split; simpl; try done.
  - by apply deque_append_length.
  - apply deque_append_Forall.
    + eapply Forall_impl; [exact Hs|]. intros b Hb.
      by apply ingested_at_stamp_is_Some.
    + rewrite (ingested_at_stamp_eq _ _ _ _ Hr). eauto.
Qed.

Lemma wf_after_ip_update w a r :
  heap w !! a = Some r -> wf w -> wf (after_ip_update wall w a r).
Proof.
  intros Hr [Hh Ht Hs Hn]. split; simpl; try done.
  - by apply deque_append_length.
  - apply deque_append_Forall.
    + eapply Forall_impl; [exact Hs|]. intros b Hb.
      by apply ingested_at_stamp_is_Some.
    + rewrite (ingested_at_stamp_eq _ _ _ _ Hr). eauto.
Qed.

Lemma preserves_wf_now : preserves wf (now wall).
Proof. intros w Hw. exact Hw. Qed.

Lemma preserves_wf_add_anomaly a : preserves wf (add_anomaly wall a).
Proof.
  intros w Hw. apply add_anomaly_cases.
  - intros _. exact Hw.
  - intros r Hr _. by apply wf_after_stamp.
  - intros r Hr _ _. by apply wf_after_ip_update.
  - intros r Hr _. by apply wf_after_add_anomaly.
Qed.

Lemma preserves_wf_add_traffic_data total anomalies :
  preserves wf (add_traffic_data wall total anomalies).
Proof.
  intros w [Hh Ht Hs Hn]. rewrite add_traffic_data_run.
  split; simpl; try done.
  - by apply deque_append_length.
  - by apply deque_append_Forall.
Qed.

Lemma preserves_wf_alloc r : preserves wf (alloc r).
Proof.
  intros w [Hh Ht Hs Hn]. split; simpl; try done.
  eapply Forall_impl; [exact Hs|]. intros b Hb.
  by rewrite ingested_at_app.
Qed.

(** Everything the connection manager does leaves the store and the
    dashboard data alone. *)
Lemma preserves_remove_connection (I : World -> Prop) c :
  (forall f w, I w -> I (with_connections f w)) ->
  preserves I (remove_connection c).
Proof.
  intros HI w Hw. unfold remove_connection. run.
  destruct (list_remove c _); simpl; auto.
Qed.

Lemma preserves_connect (I : World -> Prop) accepted c :
  (forall f w, I w -> I (with_connections f w)) ->
  preserves I (connect accepted c).
Proof.
  intros HI w Hw. unfold connect, accept. run.
  destruct accepted; simpl; auto.
Qed.

Lemma preserves_broadcast (I : World -> Prop) m :
  (forall f w, I w -> I (with_connections f w)) ->
  (forall f w, I w -> I (with_wire f w)) ->
  (forall w, I w -> I (next_broadcast w)) ->
  preserves I (broadcast link_up m).
Proof.
  intros Hc Hw Hb. unfold broadcast.
  apply preserves_bind; [apply preserves_gets|]. intros k.
  apply preserves_bind; [intros w; apply Hb|]. intros _.
  apply preserves_bind; [apply preserves_gets|]. intros [|c copy].
  { apply preserves_ret. }
  apply preserves_bind; [apply preserves_json_dumps|]. intros s.
  apply preserves_for_each. intros x.
  apply preserves_try_except.
  - unfold send_text. destruct (link_up k x).
    + intros w. apply Hw.
    + apply preserves_raise.
  - intros _. by apply preserves_remove_connection.
Qed.

Lemma preserves_wf_broadcast m : preserves wf (broadcast link_up m).
Proof. apply preserves_broadcast; intros; assumption. Qed.

Lemma preserves_wf_poll_candidate a :
  preserves wf (poll_candidate wall link_up a).
Proof.
  unfold poll_candidate.
  apply preserves_bind; [apply preserves_gets|]. intros h.
  apply preserves_bind; [apply preserves_map_m, preserves_deref|].
  intros copies.
  apply preserves_bind; [apply preserves_deref|]. intros r.
  destruct (bool_decide _); [apply preserves_ret|].
  apply preserves_bind; [apply preserves_wf_add_anomaly|]. intros _.
  apply preserves_wf_broadcast.
Qed.

Lemma preserves_wf_poll_body payload :
  preserves wf (poll_body wall link_up payload).
Proof.
  unfold poll_body.
  apply preserves_bind; [apply preserves_map_m, preserves_wf_alloc|].
  intros recent.
  apply preserves_bind;
    [apply preserves_for_each, preserves_wf_poll_candidate|].
  intros _.
  apply preserves_bind.
  { apply preserves_filter_m. intros a.
    apply preserves_bind; [apply preserves_dict_get|].
    intros v. apply preserves_ret. }
  intros flagged. apply preserves_wf_add_traffic_data.
Qed.

Lemma preserves_wf_poll_cycle response :
  preserves wf (poll_cycle wall link_up response).
Proof.
  apply preserves_try_except.
  - destruct response; [apply preserves_wf_poll_body | apply preserves_ret].
  - intros _. apply preserves_ret.
Qed.

Lemma preserves_wf_get_dashboard_stats :
  preserves wf (get_dashboard_stats wall).
Proof.
  unfold get_dashboard_stats.
  apply preserves_bind; [apply preserves_wf_now|]. intros t.
  apply preserves_bind; [apply preserves_gets|]. intros d.
  apply preserves_bind; [|intros recent; apply preserves_ret].
  apply preserves_filter_m. intros a.
  apply preserves_bind; [apply preserves_dict_getitem|]. intros v.
  apply preserves_bind; [apply preserves_fromisoformat|]. intros t'.
  apply preserves_ret.
Qed.

Lemma preserves_wf_run_op o : preserves wf (run_op wall link_up o).
Proof.
  destruct o; simpl.
  - apply preserves_bind; [apply preserves_wf_alloc|].
    intros _. apply preserves_ret.
  - apply preserves_connect. intros; assumption.
  - apply preserves_connect. intros; assumption.
  - apply preserves_remove_connection. intros; assumption.
  - apply preserves_wf_broadcast.
  - apply preserves_wf_add_anomaly.
  - apply preserves_wf_add_traffic_data.
  - apply preserves_bind; [apply preserves_wf_get_dashboard_stats|].
    intros _. apply preserves_ret.
  - intros w Hw. exact Hw.
  - intros w Hw. exact Hw.
  - apply preserves_wf_poll_cycle.
Qed.

Lemma wf_init : wf World_init.
Proof. split; simpl; auto with lia. Qed.

Lemma reachable_wf w : reachable wall link_up w -> wf w.
Proof.
  induction 1 as [|o w _ IH]; [apply wf_init|].
  by apply preserves_wf_run_op.
Qed.

Lemma reachable_run_ops os w :
  reachable wall link_up w -> reachable wall link_up (run_ops wall link_up os w).
Proof.
  revert w. induction os as [|o os IH]; intros w Hw; simpl; [done|].
  apply IH. by constructor.
Qed.
End Runs_facts.

(** *** Bounded histories *)

Section Histories.
Variable wall : nat -> Z.
Variable link_up : nat -> conn -> bool.

Lemma strip_after_add_anomaly w a r :
  heap w !! a = Some r ->
  delete "timestamp" <$> heap (after_add_anomaly wall w a r)
  = delete "timestamp" <$> heap w.
Proof.
  intros Hr. simpl. rewrite list_fmap_insert. unfold stamp.
  rewrite delete_insert_eq. apply list_insert_id.
  rewrite list_lookup_fmap. apply fmap_Some. eauto.
Qed.

Lemma well_keyed_stamp t r : well_keyed (stamp t r) <-> well_keyed r.
Proof. unfold well_keyed, stamp. by rewrite !lookup_insert_ne. Qed.

Lemma well_keyed_at_stamp h a b r t :
  h !! a = Some r -> well_keyed_at h b ->
  well_keyed_at (<[a := stamp t r]> h) b.
Proof.
  intros Hr. unfold well_keyed_at. destruct (decide (a = b)) as [->|Hne].
  - rewrite list_lookup_insert_eq by (by eapply lookup_lt_Some).
    rewrite Hr. by rewrite well_keyed_stamp.
  - by rewrite list_lookup_insert_ne.
Qed.

(** Whatever [add_anomaly] returns or raises on an object of the store,
    the object is stamped and its reference appended by then. *)
Lemma add_anomaly_appends w a :
  a < length (heap w) ->
  let w' := snd (add_anomaly wall a w) in
  anomaly_history (dashboard_data w')
  = deque_append 1000 a (anomaly_history (dashboard_data w)) /\
  traffic_stats (dashboard_data w') = traffic_stats (dashboard_data w) /\
  delete "timestamp" <$> heap w' = delete "timestamp" <$> heap w /\
  length (heap w') = length (heap w).
Proof.
  intros Ha.
  apply (add_anomaly_cases wall (fun w' =>
    anomaly_history (dashboard_data w')
    = deque_append 1000 a (anomaly_history (dashboard_data w)) /\
    traffic_stats (dashboard_data w') = traffic_stats (dashboard_data w) /\
    delete "timestamp" <$> heap w' = delete "timestamp" <$> heap w /\
    length (heap w') = length (heap w))).
  - intros Hnone. apply lookup_ge_None in Hnone. lia.
  - intros r Hr _. split_and!; try done.
    + by apply strip_after_add_anomaly.
    + simpl. by rewrite length_insert.
  - intros r Hr _ _. split_and!; try done.
    + by apply strip_after_add_anomaly.
    + simpl. by rewrite length_insert.
  - intros r Hr _. split_and!; try done.
    + by apply strip_after_add_anomaly.
    + simpl. by rewrite length_insert.
Qed.

Lemma run_ops_add_anomaly evs w :
  Forall (fun a => a < length (heap w)) evs ->
  let w' := run_ops wall link_up (map OpAddAnomaly evs) w in
  anomaly_history (dashboard_data w')
  = foldl (fun d x => deque_append 1000 x d)
          (anomaly_history (dashboard_data w)) evs /\
  traffic_stats (dashboard_data w') = traffic_stats (dashboard_data w) /\
  delete "timestamp" <$> heap w' = delete "timestamp" <$> heap w.
Proof.
  revert w. induction evs as [|a evs IH]; intros w Hall; [done|].
  apply Forall_cons in Hall as [Ha Hall].
  destruct (add_anomaly_appends w a Ha) as (Hh & Ht & Hs & Hl).
  destruct (IH (snd (add_anomaly wall a w))) as (Hh' & Ht' & Hs').
  { by rewrite Hl. }
  cbv zeta in *.
  change (run_ops wall link_up (map OpAddAnomaly (a :: evs)) w)
    with (run_ops wall link_up (map OpAddAnomaly evs)
            (snd (add_anomaly wall a w))).
  split_and!.
  - rewrite Hh'. by rewrite Hh.
  - by rewrite Ht'.
  - by rewrite Hs'.
Qed.

(** A loop of [add_anomaly] calls over well-keyed objects runs to its
    end. *)
Lemma for_each_add_anomaly evs w :
  Forall (well_keyed_at (heap w)) evs ->
  for_each evs (add_anomaly wall) w
  = (Ok tt, run_ops wall link_up (map OpAddAnomaly evs) w).
Proof.
  revert w. induction evs as [|a evs IH]; intros w Hall; [done|].
  apply Forall_cons in Hall as [Ha Hall].
  unfold well_keyed_at in Ha.
  destruct (heap w !! a) as [r|] eqn:Hr; [|done].
  rewrite for_each_cons.
  rewrite (run_bind_ok _ _ _ _ _ (add_anomaly_run _ _ _ _ Hr Ha)).
  change (run_ops wall link_up (map OpAddAnomaly (a :: evs)) w)
    with (run_ops wall link_up (map OpAddAnomaly evs)
            (snd (add_anomaly wall a w))).
  rewrite (add_anomaly_run _ _ _ _ Hr Ha). cbn [snd].
  apply IH. simpl. eapply Forall_impl; [exact Hall|].
  intros b. by apply well_keyed_at_stamp.
Qed.

(** C5: in every reachable state [anomaly_history] holds at most 1000
    entries and [traffic_stats] at most 100; an insertion into a full
    history drops exactly the oldest entry and appends the new one, an
    insertion into one with room only appends; inserting any batch of
    events, each call returning or raising, leaves the last 1000 of
    everything inserted, in insertion order, so 1500 events leave
    exactly the last 1000 of them; the insertions change no field of any
    stored object but the timestamp; a loop of insertions of well-keyed
    events runs to its end. *)
Theorem bounded_fifo_histories (w : World) (evs : list loc) :
  reachable wall link_up w ->
  Forall (fun a => a < length (heap w)) evs ->
  let d := dashboard_data w in
  let hist (w : World) := anomaly_history (dashboard_data w) in
  let traf (w : World) := traffic_stats (dashboard_data w) in
  let w' := run_ops wall link_up (map OpAddAnomaly evs) w in
  length (hist w) <= 1000 /\
  length (traf w) <= 100 /\
  (forall a, a < length (heap w) ->
     hist (snd (add_anomaly wall a w))
     = if decide (length (hist w) = 1000)
       then drop 1 (hist w) ++ [a] else hist w ++ [a]) /\
  (forall total anomalies,
     traf (snd (add_traffic_data wall total anomalies w))
     = let s := mkTrafficSample (wall (ticks w)) total anomalies
                                (total - anomalies) in
       if decide (length (traf w) = 100)
       then drop 1 (traf w) ++ [s] else traf w ++ [s]) /\
  hist w' = drop (length (hist w ++ evs) - 1000) (hist w ++ evs) /\
  (length evs = 1500 -> hist w' = drop 500 evs /\ length (hist w') = 1000) /\
  delete "timestamp" <$> heap w' = delete "timestamp" <$> heap w /\
  (Forall (well_keyed_at (heap w)) evs ->
     for_each evs (add_anomaly wall) w = (Ok tt, w')).
Proof.
  intros Hreach Hall d hist traf w'.
  destruct (reachable_wf _ _ _ Hreach) as [Hh Ht _ _].
  destruct (run_ops_add_anomaly evs w Hall) as (Hh1 & _ & Hs).
  fold w' in Hh1, Hs.
  assert (Hbatch :
    hist w' = drop (length (hist w ++ evs) - 1000) (hist w ++ evs)).
  { subst hist. cbv beta. rewrite Hh1.
    by apply deque_append_foldl; [lia|]. }
  split_and!; try done.
  - intros a Ha. destruct (add_anomaly_appends w a Ha) as (Hha & _).
    subst hist. cbv beta. rewrite Hha.
    destruct (decide _) as [Hfull|Hroom].
    + by apply deque_append_full; [lia|].
    + apply deque_append_room. lia.
  - intros total anomalies. subst traf. simpl.
    destruct (decide _) as [Hfull|Hroom].
    + by apply deque_append_full; [lia|].
    + apply deque_append_room. lia.
  - intros Hlen. rewrite Hbatch. rewrite length_app, Hlen.
    replace (length (hist w) + 1500 - 1000) with (length (hist w) + 500)
      by lia.
    rewrite drop_app_add. split; [done|]. rewrite length_drop. lia.
  - intros Hwk. by apply for_each_add_anomaly.
Qed.
End Histories.

(** *** The connection manager *)

Lemma disconnect_run w c :
  disconnect c w
  = match list_remove c (active_connections (manager w)) with
    | Some l' => (Ok tt, with_connections (fun _ => l') w)
    | None => (Raise ValueError, w)
    end.
Proof.
  unfold disconnect, remove_connection. run.
  by destruct (list_remove c _).
Qed.

(** C3, as the code has it: [disconnect] removes the first occurrence of a
    connection that is in the live list, and raises [ValueError], leaving
    the live list as it is, for one that is not: a second [disconnect] of
    a connection that was there once raises. *)
Theorem disconnect_removes_or_raises (w : World) (c : conn) :
  let live (w : World) := active_connections (manager w) in
  (c ∉ live w -> disconnect c w = (Raise ValueError, w)) /\
  (c ∈ live w ->
     exists l1 l2,
       live w = l1 ++ (c :: l2) /\ (c ∉ l1) /\
       disconnect c w = (Ok tt, with_connections (fun _ => l1 ++ l2) w) /\
       (c ∉ l2 ->
          fst (disconnect c (snd (disconnect c w))) = Raise ValueError)).
Proof.
  intros live. split.
  - intros Hc. by rewrite disconnect_run, list_remove_absent.
  - intros Hc. apply list_elem_of_split_l in Hc as (l1 & l2 & Hl & Hc).
    exists l1, l2. split_and!; try done.
    + rewrite disconnect_run. subst live. simpl in Hl.
      by rewrite Hl, list_remove_middle.
    + intros Hc2. rewrite (disconnect_run w). subst live. simpl in Hl.
      rewrite Hl, list_remove_middle by done. simpl.
      rewrite disconnect_run. simpl.
      rewrite list_remove_absent; [done|].
      rewrite elem_of_app. tauto.
Qed.
Section Manager.
Variable link_up : nat -> conn -> bool.

(** The loop of [broadcast] once the connections of [pre] have been
    tried: those that failed are gone from the live list already. *)
Lemma broadcast_loop k s rest pre w :
  active_connections (manager w) = filter (fun c => link_up k c) pre ++ rest ->
  for_each rest (fun connection =>
    try_except (send_text link_up k connection s)
               (fun _ => remove_connection connection)) w
  = (Ok tt,
     mkWorld (heap w) (ticks w) (bcasts w)
       (wire w ++ map (fun c => (c, s)) (filter (fun c => link_up k c) rest))
       (mkConnectionManager (filter (fun c => link_up k c) (pre ++ rest)))
       (dashboard_data w)).
Proof.
  revert pre w. induction rest as [|c rest IH]; intros pre w Hlive.
  { simpl. rewrite !app_nil_r in *. rewrite <- Hlive.
    by destruct w as [? ? ? ? [?] ?]. }
  rewrite for_each_cons, run_bind.
  unfold try_except at 1. unfold send_text at 1.
  destruct (link_up k c) eqn:Hc.
  - simpl. rewrite (IH (pre ++ [c])).
    + simpl. rewrite filter_cons_True by (by apply Is_true_true_2).
      simpl. by rewrite <- !app_assoc.
    + simpl. rewrite Hlive, filter_app, filter_cons_True by (by apply Is_true_true_2).
      by rewrite <- app_assoc.
  - simpl. unfold remove_connection. run. simpl.
    rewrite Hlive, list_remove_middle.
    2: { rewrite list_elem_of_filter. intros [Hup _].
         by apply (Is_true_false_2 _ Hc). }
    simpl. rewrite (IH pre) by done. simpl.
    rewrite filter_cons_False by (by apply Is_true_false_2).
    rewrite !filter_app, filter_cons_False by (by apply Is_true_false_2). done.
Qed.

Lemma broadcast_run w m r :
  heap w !! msg_data m = Some r ->
  let up := fun c => link_up (bcasts w) c in
  broadcast link_up m w
  = (Ok tt,
     mkWorld (heap w) (ticks w) (S (bcasts w))
       (wire w ++ map (fun c => (c, mkFrame (msg_type m) r))
                      (filter up (active_connections (manager w))))
       (mkConnectionManager (filter up (active_connections (manager w))))
       (dashboard_data w)).
Proof.
  intros Hr up. unfold broadcast.
  erewrite run_bind_ok by apply run_gets.
  erewrite run_bind_ok by apply run_modify.
  erewrite run_bind_ok by apply run_gets.
  cbn [active_connections manager next_broadcast].
  destruct (active_connections (manager w)) as [|c l] eqn:Hl.
  { simpl. rewrite app_nil_r. destruct w as [? ? ? ? [?] ?].
    simpl in *. by subst. }
  erewrite run_bind_ok.
  2: { unfold json_dumps. erewrite run_bind_ok by by apply run_deref.
       apply run_ret. }
  rewrite (broadcast_loop _ _ _ []); [done|]. simpl. done.
Qed.

(** A broadcast that no other task interferes with never aborts; the
    connections whose send failed are exactly those removed from the live
    list, every other live connection receives the frame, and the next
    broadcast delivers only to the connections that remained. *)
Lemma broadcast_sequential_isolation
  (w : World) (msg msg' : message) (r r' : record) :
  heap w !! msg_data msg = Some r ->
  heap w !! msg_data msg' = Some r' ->
  let up := fun c => link_up (bcasts w) c in
  let up' := fun c => link_up (S (bcasts w)) c in
  let live (w : World) := active_connections (manager w) in
  let w1 := snd (broadcast link_up msg w) in
  let w2 := snd (broadcast link_up msg' w1) in
  let f := mkFrame (msg_type msg) r in
  let f' := mkFrame (msg_type msg') r' in
  fst (broadcast link_up msg w) = Ok tt /\
  live w1 = filter up (live w) /\
  wire w1 = wire w ++ map (fun c => (c, f)) (filter up (live w)) /\
  (forall c, c ∈ live w -> up c -> (c, f) ∈ wire w1 /\ c ∈ live w1) /\
  (forall c, ¬ up c -> c ∉ live w1) /\
  fst (broadcast link_up msg' w1) = Ok tt /\
  wire w2 = wire w1 ++ map (fun c => (c, f')) (filter up' (live w1)) /\
  (forall c g, (c, g) ∈ drop (length (wire w1)) (wire w2) ->
     c ∈ live w /\ up c /\ g = f').
Proof.
  intros Hr Hr' up up' live w1 w2 f f'.
  assert (Hw1 : broadcast link_up msg w
    = (Ok tt,
       mkWorld (heap w) (ticks w) (S (bcasts w))
         (wire w ++ map (fun c => (c, f)) (filter up (live w)))
         (mkConnectionManager (filter up (live w))) (dashboard_data w))).
  { by apply broadcast_run. }
  assert (Hw2 : broadcast link_up msg' w1
    = (Ok tt,
       mkWorld (heap w1) (ticks w1) (S (bcasts w1))
         (wire w1 ++ map (fun c => (c, f')) (filter up' (live w1)))
         (mkConnectionManager (filter up' (live w1))) (dashboard_data w1))).
  { subst w1. rewrite Hw1. simpl. rewrite (broadcast_run _ _ r') by done.
    done. }
  assert (Hlive1 : live w1 = filter up (live w)).
  { subst w1. by rewrite Hw1. }
  assert (Hwire1 :
    wire w1 = wire w ++ map (fun c => (c, f)) (filter up (live w))).
  { subst w1. by rewrite Hw1. }
  assert (Hwire2 :
    wire w2 = wire w1 ++ map (fun c => (c, f')) (filter up' (live w1))).
  { subst w2. by rewrite Hw2. }
  split_and!; try done.
  - by rewrite Hw1.
  - intros c Hc Hup. rewrite Hwire1, Hlive1. split.
    + apply elem_of_app. right. apply (list_elem_of_fmap_2 (fun c => (c, f))).
      by apply list_elem_of_filter.
    + by apply list_elem_of_filter.
  - intros c Hup. rewrite Hlive1, list_elem_of_filter. tauto.
  - by rewrite Hw2.
  - intros c g. rewrite Hwire2, drop_app_length.
    intros Hin. apply list_elem_of_fmap in Hin as (c' & Heq & Hc').
    inversion Heq; subst c' g.
    apply list_elem_of_filter in Hc' as [_ Hc'].
    rewrite Hlive1 in Hc'. apply list_elem_of_filter in Hc' as [Hup Hc'].
    done.
Qed.


(** With no other task running at its suspension points, the loop of
    [broadcast] is the sequential one. *)
Lemma send_to_all_quiet peers k s i copy w :
  (forall j, peers j = []) ->
  send_to_all link_up peers k s i copy w
  = for_each copy (fun connection =>
      try_except (send_text link_up k connection s)
                 (fun _ => remove_connection connection)) w.
Proof.
  intros Hq. revert i w. induction copy as [|c copy IH]; intros i w.
  { done. }
  cbn [send_to_all]. rewrite for_each_cons, !run_bind.
  assert (Hstep :
    try_except (yield_to (peers i);; send_text link_up k c s)
               (fun _ => remove_connection c) w
    = try_except (send_text link_up k c s)
                 (fun _ => remove_connection c) w).
  { rewrite Hq. reflexivity. }
  rewrite Hstep. clear Hstep.
  destruct (try_except _ _ w) as [[[]|e] w1]; [apply IH | done].
Qed.

Lemma broadcast_interleaved_quiet peers msg w :
  (forall j, peers j = []) ->
  broadcast_interleaved link_up peers msg w = broadcast link_up msg w.
Proof.
  intros Hq. unfold broadcast_interleaved, broadcast.
  rewrite !run_bind. destruct (gets bcasts w) as [[k|e] w0]; [|done].
  rewrite !run_bind. destruct (modify next_broadcast w0) as [[[]|e] w1];
    [|done].
  rewrite !run_bind.
  destruct (gets (fun w => active_connections (manager w)) w1)
    as [[copy|e] w2]; [|done].
  destruct copy as [|c copy]; [done|].
  rewrite !run_bind. destruct (json_dumps msg w2) as [[s|e] w3]; [|done].
  by apply send_to_all_quiet.
Qed.

(** As long as no other task connects or disconnects an observer while
    a broadcast is suspended in a send, the broadcast never aborts; the
    connections whose send failed are exactly those removed from the
    live list, every other live connection receives the frame, and the
    next broadcast delivers only to the connections that remained. *)
Lemma broadcast_isolation_without_interference
  (peers peers' : nat -> list peer_action)
  (w : World) (msg msg' : message) (r r' : record) :
  (forall i, peers i = []) ->
  (forall i, peers' i = []) ->
  heap w !! msg_data msg = Some r ->
  heap w !! msg_data msg' = Some r' ->
  let up := fun c => link_up (bcasts w) c in
  let up' := fun c => link_up (S (bcasts w)) c in
  let live (w : World) := active_connections (manager w) in
  let w1 := snd (broadcast_interleaved link_up peers msg w) in
  let w2 := snd (broadcast_interleaved link_up peers' msg' w1) in
  let f := mkFrame (msg_type msg) r in
  let f' := mkFrame (msg_type msg') r' in
  fst (broadcast_interleaved link_up peers msg w) = Ok tt /\
  live w1 = filter up (live w) /\
  wire w1 = wire w ++ map (fun c => (c, f)) (filter up (live w)) /\
  (forall c, c ∈ live w -> up c -> (c, f) ∈ wire w1 /\ c ∈ live w1) /\
  (forall c, ¬ up c -> c ∉ live w1) /\
  fst (broadcast_interleaved link_up peers' msg' w1) = Ok tt /\
  wire w2 = wire w1 ++ map (fun c => (c, f')) (filter up' (live w1)) /\
  (forall c g, (c, g) ∈ drop (length (wire w1)) (wire w2) ->
     c ∈ live w /\ up c /\ g = f').
Proof.
  intros Hq Hq' Hr Hr'. cbv zeta.
  rewrite !(broadcast_interleaved_quiet peers) by done.
  rewrite !(broadcast_interleaved_quiet peers') by done.
  by apply broadcast_sequential_isolation.
Qed.
End Manager.

(** *** Reading the history *)

Lemma filter_m_pure {A} (P : A -> Prop) `{forall x, Decision (P x)}
    (p : A -> M bool) xs w :
  Forall (fun x => p x w = (Ok (bool_decide (P x)), w)) xs ->
  filter_m p xs w = (Ok (filter P xs), w).
Proof.
  induction 1 as [|x xs Hx _ IH]; [done|].
  simpl. erewrite run_bind_ok by exact Hx.
  erewrite run_bind_ok by exact IH.
  rewrite run_ret.
  destruct (decide (P x)) as [HP|HP].
  - by rewrite bool_decide_eq_true_2, filter_cons_True.
  - by rewrite bool_decide_eq_false_2, filter_cons_False.
Qed.

Lemma map_m_deref_run refs w :
  Forall (fun a => is_Some (heap w !! a)) refs ->
  map_m deref refs w = (Ok (contents (heap w) refs), w).
Proof.
  induction 1 as [|a refs [r Hr] _ IH]; [done|].
  simpl. erewrite run_bind_ok by by apply run_deref.
  erewrite run_bind_ok by exact IH.
  rewrite run_ret. unfold contents. simpl. by rewrite Hr.
Qed.

Lemma ingested_at_lookup h a t :
  ingested_at h a = Some t ->
  exists r, h !! a = Some r /\ r !! "timestamp" = Some (VTime t).
Proof.
  unfold ingested_at. destruct (h !! a) as [r|]; [|done].
  destruct (r !! "timestamp") as [[]|] eqn:Hts; try done.
  intros [= ->]. eauto.
Qed.

Section Reads.
Variable wall : nat -> Z.
Variable link_up : nat -> conn -> bool.

(** The comprehension of [get_dashboard_stats] on a stamped entry. *)
Lemma recent_test_run now_ w a :
  is_Some (ingested_at (heap w) a) ->
  (ts ← dict_getitem a "timestamp";
   t ← fromisoformat ts;
   ret (bool_decide (now_ - hour_us < t)%Z)) w
  = (Ok (bool_decide (within_last_hour now_ (ingested_at (heap w) a))), w).
Proof.
  intros [t Ht]. rewrite Ht.
  destruct (ingested_at_lookup _ _ _ Ht) as (r & Hr & Hts).
  erewrite run_bind_ok.
  2: { unfold dict_getitem. erewrite run_bind_ok by by apply run_deref.
       rewrite Hts. apply run_ret. }
  simpl. erewrite run_bind_ok by apply run_ret. done.
Qed.

Lemma get_dashboard_stats_run w :
  wf w ->
  let d := dashboard_data w in
  get_dashboard_stats wall w
  = (Ok (mkSnapshot
           (length (anomaly_history d))
           (length (filter (fun a => within_last_hour (wall (ticks w))
                                       (ingested_at (heap w) a))
                           (anomaly_history d)))
           (slice_to 10 (sorted_desc snd (ip_counts d)))
           (protocol_stats d)
           (slice_from (-24) (traffic_stats d))
           (slice_from (-20) (anomaly_history d))
           (hourly_stats d)),
     tick w).
Proof.
  intros [_ _ Hs _] d. unfold get_dashboard_stats.
  erewrite run_bind_ok by reflexivity.
  erewrite run_bind_ok by apply run_gets.
  erewrite run_bind_ok.
  2: { apply (filter_m_pure
                (fun a => within_last_hour (wall (ticks w))
                            (ingested_at (heap w) a))).
       eapply Forall_impl; [exact Hs|]. intros a Ha.
       by apply (recent_test_run _ (tick w)). }
  done.
Qed.

(** C6: a snapshot taken at time [now_] succeeds, and its
    [recent_anomalies_count] is the number of history entries whose
    ingestion timestamp is strictly greater than [now_] minus one hour:
    an entry stamped 61 minutes, or exactly one hour, before [now_] is
    not counted, one stamped 59 minutes before is. *)
Theorem recent_anomalies_count_last_hour (w : World) :
  reachable wall link_up w ->
  let now_ := wall (ticks w) in
  let hist := anomaly_history (dashboard_data w) in
  let recent :=
    filter (fun a => within_last_hour now_ (ingested_at (heap w) a)) hist in
  exists snap,
    get_dashboard_stats wall w = (Ok snap, tick w) /\
    recent_anomalies_count snap = length recent /\
    Forall (fun a => is_Some (ingested_at (heap w) a)) hist /\
    (forall a, a ∈ recent <->
       a ∈ hist /\ exists t, ingested_at (heap w) a = Some t /\
                             (now_ - hour_us < t)%Z) /\
    (forall a, ingested_at (heap w) a = Some (now_ - 61 * minute_us)%Z ->
       a ∉ recent) /\
    (forall a, ingested_at (heap w) a = Some (now_ - hour_us)%Z ->
       a ∉ recent) /\
    (forall a, a ∈ hist ->
       ingested_at (heap w) a = Some (now_ - 59 * minute_us)%Z ->
       a ∈ recent).
Proof.
  intros Hreach now_ hist recent.
  pose proof (reachable_wf _ _ _ Hreach) as Hwf.
  eexists. split; [by apply get_dashboard_stats_run|].
  split; [done|]. split; [by destruct Hwf|].
  assert (Hin : forall a, a ∈ recent <->
       a ∈ hist /\ exists t, ingested_at (heap w) a = Some t /\
                             (now_ - hour_us < t)%Z).
  { intros a. subst recent. rewrite list_elem_of_filter.
    destruct (ingested_at (heap w) a) as [t|]; simpl.
    - split; [intros [? ?]; eauto|].
      intros [? (t' & [= <-] & ?)]. done.
    - split; [tauto|]. intros [_ (t' & ? & _)]. done. }
  split_and!.
  - apply Hin.
  - intros a Ha. rewrite Hin, Ha. intros [_ (t & [= <-] & Hlt)].
    unfold hour_us, minute_us in Hlt. lia.
  - intros a Ha. rewrite Hin, Ha. intros [_ (t & [= <-] & Hlt)]. lia.
  - intros a Hhist Ha. rewrite Hin, Ha. split; [done|].
    eexists. split; [done|]. unfold hour_us, minute_us. lia.
Qed.

(** C9: [get_recent_anomalies] never fails and always reports the full
    history length as total; with [limit = 0] it returns the whole
    history, and with [limit >= 1] the last [limit] entries (all of them
    when there are fewer), in insertion order. *)
Theorem get_recent_anomalies_slice (w : World) (limit : Z) :
  let h := anomaly_history (dashboard_data w) in
  get_recent_anomalies 0 w = (Ok (h, length h), w) /\
  ((1 <= limit)%Z ->
     get_recent_anomalies limit w
     = (Ok (drop (length h - Z.to_nat limit) h, length h), w) /\
     length (drop (length h - Z.to_nat limit) h)
     = Nat.min (Z.to_nat limit) (length h)).
Proof.
  intros h. split.
  - unfold get_recent_anomalies.
    erewrite run_bind_ok by apply run_gets.
    rewrite run_ret. by rewrite slice_from_zero.
  - intros Hl. split.
    + unfold get_recent_anomalies.
      erewrite run_bind_ok by apply run_gets.
      rewrite run_ret.
      replace (- limit)%Z with (- Z.of_nat (Z.to_nat limit))%Z by lia.
      rewrite slice_from_last by lia. done.
    + rewrite length_drop. lia.
Qed.
End Reads.

(** *** Ranking *)

Section sorted_facts.
Context {A : Type} (key : A -> Z).

Lemma insert_desc_perm x l : insert_desc key x l ≡ₚ x :: l.
Proof.
  induction l as [|y l IH]; simpl; [done|].
  destruct (key x <? key y)%Z; [|done].
  rewrite IH. apply Permutation_swap.
Qed.

Lemma sorted_desc_perm l : sorted_desc key l ≡ₚ l.
Proof.
  induction l as [|x l IH]; simpl; [done|].
  by rewrite insert_desc_perm, IH.
Qed.

Lemma insert_desc_sorted x l :
  StronglySorted (desc key) l -> StronglySorted (desc key) (insert_desc key x l).
Proof.
  induction 1 as [|y l Hl IH Hy]; simpl.
  { repeat constructor. }
  destruct (Z.ltb_spec (key x) (key y)) as [Hlt|Hge].
  - constructor; [done|].
    rewrite insert_desc_perm. constructor; [unfold desc; lia | done].
  - constructor; [by constructor|].
    constructor; [done|].
    eapply Forall_impl; [exact Hy|]. unfold desc. intros z Hz. lia.
Qed.

Lemma sorted_desc_sorted l : StronglySorted (desc key) (sorted_desc key l).
Proof.
  induction l as [|x l IH]; simpl; [constructor|].
  by apply insert_desc_sorted.
Qed.

(** Stability: the items with one key keep their order. *)
Lemma insert_desc_stable k x l :
  filter (fun y => key y = k) (insert_desc key x l)
  = filter (fun y => key y = k) (x :: l).
Proof.
  induction l as [|y l IH]; simpl; [done|].
  destruct (Z.ltb_spec (key x) (key y)) as [Hlt|Hge]; [|done].
  destruct (decide (key x = k)) as [Hx|Hx].
  - rewrite (filter_cons_True _ x) by done.
    rewrite !(filter_cons_False _ y) by lia.
    by rewrite IH, filter_cons_True.
  - rewrite (filter_cons_False _ x) by done.
    rewrite !(filter_cons _ y), IH.
    by rewrite (filter_cons_False _ x).
Qed.

Lemma sorted_desc_stable k l :
  filter (fun y => key y = k) (sorted_desc key l)
  = filter (fun y => key y = k) l.
Proof.
  induction l as [|x l IH]; simpl; [done|].
  rewrite insert_desc_stable, !(filter_cons _ x). by rewrite IH.
Qed.

(** What a prefix of the ranking satisfies. *)
Lemma take_sorted_desc n l :
  let top := take n (sorted_desc key l) in
  length top = Nat.min n (length l) /\
  StronglySorted (desc key) top /\
  (exists rest, l ≡ₚ top ++ rest /\
                forall x y, x ∈ top -> y ∈ rest -> desc key x y) /\
  (forall k, filter (fun y => key y = k) top
             `prefix_of` filter (fun y => key y = k) l).
Proof.
  intros top. pose proof (sorted_desc_sorted l) as Hs.
  pose proof (take_drop n (sorted_desc key l)) as Hsplit.
  fold top in Hsplit. split_and!.
  - subst top. by rewrite length_take, (Permutation_length (sorted_desc_perm l)).
  - rewrite <- Hsplit in Hs. by apply StronglySorted_app_1_l in Hs.
  - exists (drop n (sorted_desc key l)). split.
    + by rewrite Hsplit, sorted_desc_perm.
    + rewrite <- Hsplit in Hs. intros x y Hx Hy.
      by eapply (StronglySorted_app_1_elem_of (desc key)).
  - intros k. rewrite <- (sorted_desc_stable k l), <- Hsplit, filter_app.
    by apply prefix_app_r.
Qed.
End sorted_facts.

Lemma sorted_desc_map {A B} (key : B -> Z) (f : A -> B) l :
  sorted_desc key (map f l) = map f (sorted_desc (fun x => key (f x)) l).
Proof.
  induction l as [|x l IH]; simpl; [done|]. rewrite IH. clear IH.
  induction (sorted_desc _ l) as [|y s IH]; simpl; [done|].
  destruct (key (f x) <? key (f y))%Z; simpl; [by rewrite IH | done].
Qed.

Lemma sorted_desc_ext {A} (key key' : A -> Z) l :
  (forall x, key x = key' x) -> sorted_desc key l = sorted_desc key' l.
Proof.
  intros Hk. induction l as [|x l IH]; simpl; [done|]. rewrite IH. clear IH.
  induction (sorted_desc key' l) as [|y s IH]; simpl; [done|].
  by rewrite !Hk, IH.
Qed.

Section Ranking.
Variable wall : nat -> Z.
Variable link_up : nat -> conn -> bool.

Lemma get_top_ips_run w limit :
  exists tops,
    get_top_ips (Z.of_nat limit) w = (Ok tops, w) /\
    map (fun t => (ip t, ip_count t)) tops
    = take limit (sorted_desc snd (ip_counts (dashboard_data w))).
Proof.
  eexists. split; [reflexivity|].
  rewrite slice_to_first. unfold ip_counts.
  set (h := fun x : value * Z * option Z => (x.1.1, x.1.2)).
  set (g := fun '(i, data) => (i, count data, last_seen data)).
  rewrite map_map.
  rewrite (map_ext _ h) by (by intros [[? ?] ?]).
  rewrite <- firstn_map. f_equal.
  rewrite (map_ext (fun '(i, data) => (i, count data))
                   (fun x => h (g x))) by (by intros [? ?]).
  rewrite <- (map_map g h), !sorted_desc_map.
  do 2 f_equal.
Qed.

(** C4, as the code has it: a snapshot succeeds and its
    [top_attacking_ips] are the first 10 items of [ip_stats] ranked by
    count, descending: no item left out has a higher count than one
    listed; items with equal counts keep the order in which their IPs
    first entered [ip_stats]; [get_top_ips] ranks in the same way up to
    its limit; counts 5, 9 and 1 for three IPs rank the second, the
    first, then the third. *)
Theorem top_attacking_ips_ranking (w : World) (limit : nat) :
  reachable wall link_up w ->
  let items := ip_counts (dashboard_data w) in
  exists snap tops,
    get_dashboard_stats wall w = (Ok snap, tick w) /\
    get_top_ips (Z.of_nat limit) w = (Ok tops, w) /\
    let top := top_attacking_ips snap in
    length top = Nat.min 10 (length items) /\
    StronglySorted (desc snd) top /\
    (exists rest, items ≡ₚ top ++ rest /\
                  forall x y, x ∈ top -> y ∈ rest -> (snd y <= snd x)%Z) /\
    (forall k, filter (fun y => snd y = k) top
               `prefix_of` filter (fun y => snd y = k) items) /\
    map (fun t => (ip t, ip_count t)) tops
    = take limit (sorted_desc snd items) /\
    (limit = 10 -> map (fun t => (ip t, ip_count t)) tops = top) /\
    (forall a b c : value,
       items ≡ₚ [(a, 5%Z); (b, 9%Z); (c, 1%Z)] ->
       top = [(b, 9%Z); (a, 5%Z); (c, 1%Z)]).
Proof.
  intros Hreach items.
  pose proof (reachable_wf _ _ _ Hreach) as Hwf.
  destruct (get_top_ips_run w limit) as (tops & Htops & Hmap).
  eexists _, tops. split; [by apply get_dashboard_stats_run|].
  split; [done|]. cbn [top_attacking_ips].
  rewrite (slice_to_first 10).
  destruct (take_sorted_desc snd 10 items) as (Hlen & Hsort & Hrest & Hties).
  split_and!; try done.
  - intros ->. done.
  - intros a b c Hperm.
    assert (Hs : sorted_desc snd items = [(b, 9%Z); (a, 5%Z); (c, 1%Z)]).
    { apply (StronglySorted_unique_strong (desc snd)).
      - intros x y Hx Hy. rewrite sorted_desc_perm, Hperm in Hx.
        unfold desc.
        set_unfold in Hx. set_unfold in Hy.
        destruct Hx as [Hx|[Hx|[Hx|[]]]]; destruct Hy as [Hy|[Hy|[Hy|[]]]];
          subst x y; simpl; intros; first [done | lia].
      - apply sorted_desc_sorted.
      - repeat constructor; unfold desc; simpl; lia.
      - rewrite sorted_desc_perm, Hperm. apply Permutation_swap. }
    unfold items in Hs. by rewrite Hs.
Qed.
End Ranking.

(** *** Counters *)

Section odict_facts.
Context {K V : Type} `{EqDecision K}.

Lemma od_get_dd_alter_eq (dflt : V) f (k : K) d :
  od_get k (dd_alter dflt f k d) = Some (f (default dflt (od_get k d))).
Proof.
  induction d as [|[k' v] d IH]; simpl.
  - by rewrite decide_True.
  - destruct (decide (k = k')) as [->|Hne]; simpl.
    + by rewrite decide_True.
    + by rewrite decide_False.
Qed.

Lemma od_get_dd_alter_ne (dflt : V) f (k k' : K) d :
  k' ≠ k -> od_get k' (dd_alter dflt f k d) = od_get k' d.
Proof.
  intros Hne. induction d as [|[k'' v] d IH]; simpl.
  - by rewrite decide_False.
  - destruct (decide (k = k'')) as [->|Hne']; simpl.
    + by rewrite !decide_False.
    + by rewrite IH.
Qed.
End odict_facts.

Lemma deque_append_last {A} n (x : A) d :
  0 < n -> last (deque_append n x d) = Some x.
Proof.
  intros Hn. unfold deque_append. destruct (decide _) as [Hlt|_].
  - rewrite length_app in Hlt. simpl in Hlt.
    destruct d as [|y d]; simpl in *; [lia|]. by rewrite drop_0, last_snoc.
  - by rewrite last_snoc.
Qed.

Lemma not_in_contents h refs (r : record) :
  Forall (fun a => is_Some (ingested_at h a)) refs ->
  r !! "timestamp" = None -> r ∉ contents h refs.
Proof.
  intros Hs Hr Hin. unfold contents in Hin.
  apply list_elem_of_omap in Hin as (a & Ha & Hl).
  rewrite Forall_forall in Hs. destruct (Hs a Ha) as [t Ht].
  destruct (ingested_at_lookup _ _ _ Ht) as (r' & Hr' & Hts).
  congruence.
Qed.

Section Ingestion.
Variable wall : nat -> Z.
Variable link_up : nat -> conn -> bool.

(** C8, as the code has it: [add_anomaly] on a dict returns exactly when
    the record's [src_ip] and [protocol] can be dict keys; a missing one
    never makes it fail: the counters are then keyed by the string
    "Unknown".  An array or object in their place raises [TypeError],
    once the record is stamped and stored: for [src_ip] before any
    counter is touched, for [protocol] after [ip_stats] is updated.
    Returning or raising, the stored object is the candidate with the
    timestamp set and every other field as it was: a missing field,
    numeric or not, stays missing. *)
Theorem add_anomaly_sentinel_and_errors
  (w : World) (a : loc) (r : record) :
  heap w !! a = Some r ->
  let d := dashboard_data w in
  let w' := snd (add_anomaly wall a w) in
  let d' := dashboard_data w' in
  let src_ip := default (VStr "Unknown") (r !! "src_ip") in
  let protocol := default (VStr "Unknown") (r !! "protocol") in
  let seen := default (mkIPStat 0 None) (od_get src_ip (ip_stats d)) in
  (fst (add_anomaly wall a w) = Ok tt <-> well_keyed r) /\
  (r !! "src_ip" = None -> src_ip = VStr "Unknown") /\
  (r !! "protocol" = None -> protocol = VStr "Unknown") /\
  (r !! "src_ip" = None -> r !! "protocol" = None ->
     fst (add_anomaly wall a w) = Ok tt) /\
  (well_keyed r ->
     od_get src_ip (ip_stats d')
     = Some (mkIPStat (count seen + 1) (Some (wall (1 + ticks w)))) /\
     od_get protocol (protocol_stats d')
     = Some (default 0 (od_get protocol (protocol_stats d)) + 1)%Z) /\
  (hashable src_ip = false ->
     add_anomaly wall a w = (Raise TypeError, after_stamp wall w a r)) /\
  (hashable src_ip = true -> hashable protocol = false ->
     add_anomaly wall a w = (Raise TypeError, after_ip_update wall w a r)) /\
  last (anomaly_history d') = Some a /\
  heap w' !! a = Some (stamp (wall (ticks w)) r) /\
  (forall k, k ≠ "timestamp" ->
     stamp (wall (ticks w)) r !! k = r !! k).
Proof.
  intros Hr d w' d' src_ip protocol seen. subst w' d'.
  pose proof (add_anomaly_outcome wall w a r Hr) as Hout.
  fold src_ip protocol in Hout.
  assert (Hlt : a < length (heap w)) by by eapply lookup_lt_Some.
  assert (Hwk : well_keyed r <->
                hashable src_ip = true /\ hashable protocol = true).
  { unfold well_keyed. fold src_ip protocol.
    by rewrite !Is_true_true. }
  split_and!.
  - rewrite Hout, Hwk.
    destruct (hashable src_ip), (hashable protocol); simpl;
      split; try done; intros [? ?]; done.
  - intros Hnone. subst src_ip. by rewrite Hnone.
  - intros Hnone. subst protocol. by rewrite Hnone.
  - intros Hs Hp. rewrite Hout. subst src_ip protocol.
    by rewrite Hs, Hp.
  - intros Hk. rewrite (add_anomaly_run _ _ _ _ Hr Hk). simpl.
    by rewrite !od_get_dd_alter_eq.
  - intros Hs. by rewrite Hout, Hs.
  - intros Hs Hp. by rewrite Hout, Hs, Hp.
  - rewrite Hout.
    destruct (hashable src_ip), (hashable protocol); simpl;
      by apply deque_append_last; lia.
  - rewrite Hout.
    destruct (hashable src_ip), (hashable protocol); simpl;
      by apply list_lookup_insert_eq.
  - intros k Hk. unfold stamp. by rewrite lookup_insert_ne.
Qed.

Lemma poll_candidate_run w a r :
  wf w -> heap w !! a = Some r ->
  poll_candidate wall link_up a w
  = if bool_decide
         (r ∈ contents (heap w) (anomaly_history (dashboard_data w)))
    then (Ok tt, w)
    else (add_anomaly wall a;;
          broadcast link_up (mkMessage "new_anomaly" a)) w.
Proof.
  intros [_ _ Hs _] Hr. unfold poll_candidate.
  erewrite run_bind_ok by apply run_gets.
  erewrite run_bind_ok.
  2: { apply map_m_deref_run. eapply Forall_impl; [exact Hs|].
       intros b [t Ht]. destruct (ingested_at_lookup _ _ _ Ht) as (? & ? & _).
       eauto. }
  erewrite run_bind_ok by by apply run_deref.
  by destruct (bool_decide _).
Qed.

(** The state after a well-keyed candidate holding [r] went through the
    loop body as a new anomaly. *)
Lemma poll_candidate_new w a r :
  wf w -> heap w !! a = Some r -> well_keyed r ->
  r ∉ contents (heap w) (anomaly_history (dashboard_data w)) ->
  let w1 := after_add_anomaly wall w a r in
  let up := fun c => link_up (bcasts w) c in
  poll_candidate wall link_up a w
  = (Ok tt,
     mkWorld (heap w1) (ticks w1) (S (bcasts w))
       (wire w ++ map (fun c => (c, mkFrame "new_anomaly"
                                      (stamp (wall (ticks w)) r)))
                      (filter up (active_connections (manager w))))
       (mkConnectionManager (filter up (active_connections (manager w))))
       (dashboard_data w1)).
Proof.
  intros Hwf Hr Hk Hnew w1 up.
  rewrite (poll_candidate_run _ _ _ Hwf Hr).
  rewrite bool_decide_eq_false_2 by done.
  rewrite (run_bind_ok _ _ _ _ _ (add_anomaly_run _ _ _ _ Hr Hk)).
  rewrite (broadcast_run _ _ _ (stamp (wall (ticks w)) r)); [done|].
  simpl. apply list_lookup_insert_eq. by eapply lookup_lt_Some.
Qed.

(** A new candidate that is not well keyed makes [add_anomaly] raise in
    the loop body: nothing is broadcast. *)
Lemma poll_candidate_ill_keyed w a r :
  wf w -> heap w !! a = Some r -> ~ well_keyed r ->
  r ∉ contents (heap w) (anomaly_history (dashboard_data w)) ->
  poll_candidate wall link_up a w
  = (Raise TypeError, snd (add_anomaly wall a w)).
Proof.
  intros Hwf Hr Hk Hnew.
  rewrite (poll_candidate_run _ _ _ Hwf Hr).
  rewrite bool_decide_eq_false_2 by done.
  rewrite run_bind, (add_anomaly_outcome _ _ _ _ Hr).
  unfold well_keyed in Hk.
  destruct (hashable (default (VStr "Unknown") (r !! "src_ip")));
    [|done].
  destruct (hashable (default (VStr "Unknown") (r !! "protocol")));
    [|done].
  destruct Hk. done.
Qed.

End Ingestion.

(** *** The poll cycle *)

Lemma map_m_alloc_run payload w :
  map_m alloc payload w
  = (Ok (seq (length (heap w)) (length payload)),
     with_heap (fun h => h ++ payload) w).
Proof.
  revert w. induction payload as [|r payload IH]; intros w.
  { simpl. rewrite run_ret. unfold with_heap. rewrite app_nil_r.
    by destruct w. }
  simpl. erewrite run_bind_ok by reflexivity.
  erewrite run_bind_ok by apply IH.
  rewrite run_ret. unfold with_heap. simpl.
  rewrite length_app, <- app_assoc. simpl.
  by replace (length (heap w) + 1) with (S (length (heap w))) by lia.
Qed.

Lemma filter_m_length {A} (p : A -> M bool) xs w ys w' :
  filter_m p xs w = (Ok ys, w') -> length ys <= length xs.
Proof.
  revert w ys w'. induction xs as [|x xs IH]; intros w ys w'; simpl.
  { intros [= <- _]. done. }
  rewrite run_bind. destruct (p x w) as [[b|e] w1]; [|done].
  rewrite run_bind. destruct (filter_m p xs w1) as [[zs|e] w2] eqn:Hzs; [|done].
  intros [= <- _]. apply IH in Hzs. destruct b; simpl; lia.
Qed.

Lemma preserves_bind_val {A B} (I : World -> Prop) (c : M A) (k : A -> M B) :
  preserves I c ->
  (forall a w w', c w = (Ok a, w') -> I w' -> I (snd (k a w'))) ->
  preserves I (c ≫= k).
Proof.
  intros Hc Hk w Hw. specialize (Hc w Hw). rewrite run_bind.
  destruct (c w) as [[a|e] w'] eqn:Hrun; simpl in *; [|done].
  by eapply Hk.
Qed.

Section Poller.
Variable wall : nat -> Z.
Variable link_up : nat -> conn -> bool.

Lemma snd_poll_cycle payload w :
  snd (poll_cycle wall link_up (Some payload) w)
  = snd (poll_body wall link_up payload w).
Proof.
  unfold poll_cycle, try_except.
  by destruct (poll_body wall link_up payload w) as [[[]|e] w'].
Qed.

(** Well-keyed candidates without a timestamp field all come out of the
    loop as new anomalies, in order. *)
Lemma for_each_poll_candidate cands w :
  wf w -> NoDup cands ->
  Forall (fun a => exists r, heap w !! a = Some r /\ well_keyed r /\
                             r !! "timestamp" = None) cands ->
  exists w',
    for_each cands (poll_candidate wall link_up) w = (Ok tt, w') /\
    wf w' /\
    anomaly_history (dashboard_data w')
    = foldl (fun d x => deque_append 1000 x d)
            (anomaly_history (dashboard_data w)) cands /\
    delete "timestamp" <$> heap w' = delete "timestamp" <$> heap w.
Proof.
  revert w. induction cands as [|a cands IH]; intros w Hwf Hnd Hall.
  { exists w. done. }
  apply NoDup_cons in Hnd as [Ha Hnd].
  apply Forall_cons in Hall as [(r & Hr & Hk & Hts) Hall].
  assert (Hnew :
    r ∉ contents (heap w) (anomaly_history (dashboard_data w))).
  { apply not_in_contents; [by destruct Hwf | done]. }
  pose proof (poll_candidate_new wall link_up _ _ _ Hwf Hr Hk Hnew)
    as Hrun.
  simpl in Hrun.
  match type of Hrun with _ = (_, ?w1) =>
    destruct (IH w1) as (w' & Hrest & Hwf' & Hh & Hs) end.
  - by apply (wf_after_add_anomaly wall w a r).
  - done.
  - simpl. rewrite Forall_forall in Hall. apply Forall_forall.
    intros b Hb. destruct (Hall b Hb) as (r' & Hr' & Hk' & Hts').
    exists r'. split; [|done].
    rewrite list_lookup_insert_ne; [done|]. intros ->. done.
  - exists w'. split_and!; try done.
    + rewrite for_each_cons. by erewrite run_bind_ok by exact Hrun.
    + rewrite Hs. by apply (strip_after_add_anomaly wall).
Qed.

Lemma preserves_tail (I : World -> Prop) cands :
  (forall f w, I w -> I (with_data (with_traffic_stats f) (tick w))) ->
  preserves I
    (flagged ← filter_m (fun a =>
                 v ← dict_get a "result" VNull;
                 ret (bool_decide (v = num (-1)))) cands;
     add_traffic_data wall
       (Z.of_nat (length cands) + 100) (Z.of_nat (length flagged))).
Proof.
  intros HI. apply preserves_bind.
  - apply preserves_filter_m. intros a.
    apply preserves_bind; [apply preserves_dict_get|].
    intros v. apply preserves_ret.
  - intros flagged w Hw. rewrite add_traffic_data_run. by apply HI.
Qed.

(** The dedup check of the poller never recognises a fetched record:
    every candidate of a payload is stored. *)
Lemma poll_cycle_stores_every_candidate w payload :
  wf w ->
  Forall (fun r : record => well_keyed r /\ r !! "timestamp" = None)
         payload ->
  let w' := snd (poll_cycle wall link_up (Some payload) w) in
  let all := anomaly_history (dashboard_data w)
             ++ seq (length (heap w)) (length payload) in
  wf w' /\
  anomaly_history (dashboard_data w') = drop (length all - 1000) all /\
  delete "timestamp" <$> heap w' = (delete "timestamp" <$> heap w) ++ payload.
Proof.
  intros Hwf Hpay w' all.
  assert (Hwf' : wf w').
  { by apply preserves_wf_poll_cycle. }
  split; [done|]. subst w'. rewrite snd_poll_cycle. unfold poll_body.
  erewrite run_bind_ok by apply map_m_alloc_run.
  destruct (for_each_poll_candidate
              (seq (length (heap w)) (length payload))
              (with_heap (fun h => h ++ payload) w))
    as (w1 & Hrun & Hwf1 & Hh & Hs).
  { pose proof (preserves_map_m wf alloc payload preserves_wf_alloc w Hwf)
      as Hw0.
    by rewrite map_m_alloc_run in Hw0. }
  { apply NoDup_seq. }
  { simpl. apply Forall_forall. intros a Ha.
    apply elem_of_seq in Ha as [Hlo Hhi].
    rewrite Forall_forall in Hpay.
    destruct (lookup_lt_is_Some_2 payload (a - length (heap w)))
      as [r Hr]; [lia|].
    assert (Hin : r ∈ payload) by by eapply list_elem_of_lookup_2.
    destruct (Hpay r Hin) as [Hk Hts].
    exists r. split_and!; [|done..].
    rewrite lookup_app_r by lia. done. }
  erewrite run_bind_ok by exact Hrun.
  apply (preserves_tail
    (fun w2 =>
       anomaly_history (dashboard_data w2) = drop (length all - 1000) all /\
       delete "timestamp" <$> heap w2
       = (delete "timestamp" <$> heap w) ++ payload)
    (seq (length (heap w)) (length payload))).
  { intros f w2 Hw2. exact Hw2. }
  split.
  - rewrite Hh. simpl. subst all.
    apply deque_append_foldl; [lia | by destruct Hwf].
  - rewrite Hs. simpl. rewrite fmap_app. f_equal.
    apply list_eq. intros i. rewrite list_lookup_fmap.
    destruct (payload !! i) as [r|] eqn:Hr; [|done]. simpl. f_equal.
    apply delete_id. rewrite Forall_forall in Hpay.
    apply Hpay. by eapply list_elem_of_lookup_2.
Qed.

Lemma sample_record_fetched :
  well_keyed sample_record /\ sample_record !! "timestamp" = None.
Proof. split; [apply (bool_decide_unpack _)|]; by vm_compute. Qed.

(** C1: the poller stores the same fetched record twice, fed twice in one
    cycle or once in each of two cycles: the stored copy carries the
    timestamp, the candidate does not, and the comparison is on whole
    dicts. *)
Theorem dedup_stores_identical_record_twice :
  let hist (w : World) := anomaly_history (dashboard_data w) in
  let strip (w : World) := delete "timestamp" <$> heap w in
  let cycle payload w := snd (poll_cycle wall link_up (Some payload) w) in
  let once := cycle [sample_record; sample_record] World_init in
  let twice := cycle [sample_record] (cycle [sample_record] World_init) in
  hist once = [0; 1] /\ strip once = [sample_record; sample_record] /\
  hist twice = [0; 1] /\ strip twice = [sample_record; sample_record].
Proof.
  intros hist strip cycle once twice.
  subst hist strip once twice cycle. cbv beta.
  pose proof sample_record_fetched as Hrec.
  destruct (poll_cycle_stores_every_candidate World_init
              [sample_record; sample_record] wf_init)
    as (_ & Hh1 & Hs1); [by repeat constructor|].
  destruct (poll_cycle_stores_every_candidate World_init
              [sample_record] wf_init)
    as (Hwf & Hh2 & Hs2); [by repeat constructor|].
  destruct (poll_cycle_stores_every_candidate _ [sample_record] Hwf)
    as (_ & Hh3 & Hs3); [by repeat constructor|].
  assert (Hlen :
    length (heap (snd (poll_cycle wall link_up (Some [sample_record])
                                  World_init))) = 1).
  { erewrite <- length_fmap, Hs2. done. }
  split_and!; [done | done | | ].
  - rewrite Hh3, Hh2, Hlen. done.
  - rewrite Hs3, Hs2. done.
Qed.

Lemma preserves_traffic_poll_candidate (P : list TrafficSample -> Prop) a :
  preserves (fun w => P (traffic_stats (dashboard_data w)))
            (poll_candidate wall link_up a).
Proof.
  unfold poll_candidate.
  apply preserves_bind; [apply preserves_gets|]. intros h.
  apply preserves_bind; [apply preserves_map_m, preserves_deref|].
  intros copies.
  apply preserves_bind; [apply preserves_deref|]. intros r.
  destruct (bool_decide _); [apply preserves_ret|].
  apply preserves_bind.
  - intros w Hw. by apply add_anomaly_cases.
  - intros _. apply preserves_broadcast; intros; assumption.
Qed.

Lemma preserves_nonneg_poll_cycle response :
  preserves
    (fun w => Forall (fun s => 0 <= normal_count s)%Z
                     (traffic_stats (dashboard_data w)))
    (poll_cycle wall link_up response).
Proof.
  apply preserves_try_except; [|intros _; apply preserves_ret].
  destruct response as [payload|]; [|apply preserves_ret].
  unfold poll_body.
  apply preserves_bind.
  { apply preserves_map_m. intros r w Hw. exact Hw. }
  intros cands.
  apply preserves_bind.
  { apply preserves_for_each. intros a.
    apply (preserves_traffic_poll_candidate
             (Forall (fun s => 0 <= normal_count s)%Z)). }
  intros _.
  apply preserves_bind_val.
  { apply preserves_filter_m. intros a.
    apply preserves_bind; [apply preserves_dict_get|].
    intros v. apply preserves_ret. }
  intros flagged w w' Hrun Hw'. rewrite add_traffic_data_run. simpl.
  apply deque_append_Forall; [done|]. simpl.
  apply filter_m_length in Hrun. lia.
Qed.

(** C2, as the code has it: [add_traffic_data] never fails; it stores a
    sample with [normal_count = total_requests - anomaly_count] whatever
    the arguments, negative exactly when [anomaly_count > total_requests];
    every stored sample satisfies the equation, and the samples the poller
    stores have a [normal_count] that is not negative. *)
Theorem add_traffic_data_never_rejects
  (w : World) (total anomalies : Z) (response : option (list record)) :
  let traf (w : World) := traffic_stats (dashboard_data w) in
  let s := mkTrafficSample (wall (ticks w)) total anomalies
                           (total - anomalies) in
  let w' := snd (add_traffic_data wall total anomalies w) in
  fst (add_traffic_data wall total anomalies w) = Ok tt /\
  last (traf w') = Some s /\
  ((total < anomalies)%Z <-> (normal_count s < 0)%Z) /\
  (reachable wall link_up w ->
     Forall (fun s => normal_count s
                      = (total_requests s - anomaly_count s)%Z)
            (traf w')) /\
  (Forall (fun s => 0 <= normal_count s)%Z (traf w) ->
     Forall (fun s => 0 <= normal_count s)%Z
            (traf (snd (poll_cycle wall link_up response w)))).
Proof.
  intros traf s w'. split_and!.
  - done.
  - subst traf w'. cbv beta. rewrite add_traffic_data_run. simpl.
    by apply deque_append_last; lia.
  - simpl. lia.
  - intros Hreach.
    apply (reachable_step wall link_up (OpAddTraffic total anomalies))
      in Hreach.
    by destruct (reachable_wf _ _ _ Hreach).
  - apply preserves_nonneg_poll_cycle.
Qed.
End Poller.

(** ** Sample runs *)

Lemma bounded_fifo_histories_witness :
  anomaly_history
    (dashboard_data
       (snd (for_each (seq 0 1500) (add_anomaly sample_wall) many_events)))
  = seq 500 1000.
Proof.
  assert (Hreach : reachable sample_wall sample_link many_events)
    by apply reachable_run_ops, reachable_init.
  assert (Hall :
    Forall (fun a => a < length (heap many_events)) (seq 0 1500)).
  { replace (length (heap many_events)) with 1500 by (by vm_compute).
    apply Forall_forall. intros a Ha. apply elem_of_seq in Ha. lia. }
  destruct (bounded_fifo_histories sample_wall sample_link many_events
              (seq 0 1500) Hreach Hall) as (_ & _ & _ & _ & _ & H & _ & Hloop).
  rewrite Hloop.
  - destruct (H (length_seq 1500 0)) as [Heq _]. cbn [snd]. rewrite Heq.
    by vm_compute.
  - apply (bool_decide_unpack _). by vm_compute.
Defined.

Lemma recent_anomalies_count_last_hour_witness :
  exists snap,
    get_dashboard_stats stats_wall two_events = (Ok snap, tick two_events) /\
    recent_anomalies_count snap = 1.
Proof.
  destruct (recent_anomalies_count_last_hour stats_wall sample_link two_events)
    as (snap & Hrun & Hcount & _).
  { apply reachable_run_ops, reachable_init. }
  exists snap. split; [done|]. rewrite Hcount. by vm_compute.
Defined.

Lemma get_recent_anomalies_slice_witness :
  get_recent_anomalies 1 two_events = (Ok ([1], 2), two_events).
Proof.
  destruct (get_recent_anomalies_slice two_events 1) as [_ H].
  destruct H as [Heq _]; [lia|]. rewrite Heq. by vm_compute.
Defined.

Lemma broadcast_isolation_without_interference_witness :
  active_connections
    (manager (snd (broadcast_interleaved flaky_link no_peers
                     (mkMessage "new_anomaly" 0) three_observers)))
  = [1; 3] /\
  wire (snd (broadcast_interleaved flaky_link no_peers
               (mkMessage "new_anomaly" 0) three_observers))
  = [(1, mkFrame "new_anomaly" sample_record);
     (3, mkFrame "new_anomaly" sample_record)].
Proof.
  assert (Hr : heap three_observers !! 0 = Some sample_record)
    by (by vm_compute).
  destruct (broadcast_isolation_without_interference flaky_link
              no_peers no_peers three_observers
              (mkMessage "new_anomaly" 0) (mkMessage "new_anomaly" 0)
              sample_record sample_record
              (fun _ => eq_refl) (fun _ => eq_refl) Hr Hr)
    as (_ & Hlive & Hwire & _).
  split.
  - rewrite Hlive. by vm_compute.
  - rewrite Hwire. by vm_compute.
Defined.

(** C7: with three observers and a failing send to the second, the
    broadcast serves the first and the third when it runs undisturbed.
    When the task of the second connection notices the disconnect while
    the broadcast is suspended in its first send, and removes the
    connection, the failed send to the second makes the handler's
    [remove] raise [ValueError] out of the broadcast: the failure aborts
    it, and the third observer, whose send would succeed, gets nothing. *)
Theorem broadcast_aborts_on_interleaved_disconnect :
  let msg := mkMessage "new_anomaly" 0 in
  let f := mkFrame "new_anomaly" sample_record in
  let undisturbed := broadcast_interleaved flaky_link no_peers msg
                       three_observers in
  let raced := broadcast_interleaved flaky_link racing_peers msg
                 three_observers in
  active_connections (manager three_observers) = [1; 2; 3] /\
  flaky_link (bcasts three_observers) 1 = true /\
  flaky_link (bcasts three_observers) 2 = false /\
  flaky_link (bcasts three_observers) 3 = true /\
  fst undisturbed = Ok tt /\
  wire (snd undisturbed) = [(1, f); (3, f)] /\
  active_connections (manager (snd undisturbed)) = [1; 3] /\
  racing_peers 0 = [PeerDisconnect 2] /\
  (forall i, 0 < i -> racing_peers i = []) /\
  fst raced = Raise ValueError /\
  wire (snd raced) = [(1, f)] /\
  active_connections (manager (snd raced)) = [1; 3].
Proof.
  cbv zeta. split_and!; try (by vm_compute).
  intros [|i] Hi; [lia | done].
Qed.

Lemma disconnect_removes_or_raises_witness :
  disconnect 9 three_observers = (Raise ValueError, three_observers) /\
  fst (disconnect 2 three_observers) = Ok tt.
Proof.
  destruct (disconnect_removes_or_raises three_observers 9) as [Habsent _].
  destruct (disconnect_removes_or_raises three_observers 2) as [_ Hpresent].
  split.
  - apply Habsent. apply (bool_decide_unpack _). by vm_compute.
  - destruct Hpresent as (l1 & l2 & _ & _ & Hrun & _).
    { apply (bool_decide_unpack _). by vm_compute. }
    by rewrite Hrun.
Defined.

(** C3 fails on the code: [disconnect] of a connection that is not in the
    live list, never connected or already removed, raises [ValueError]. *)
Lemma disconnect_absent_raises :
(0 ∉ active_connections (manager World_init)) /\
  disconnect 0 World_init = (Raise ValueError, World_init) /\
  fst (disconnect 7 (snd (connect true 7 World_init))) = Ok tt /\
  fst (disconnect 7 (snd (disconnect 7 (snd (connect true 7 World_init)))))
  = Raise ValueError.
Proof.
  split_and!; [|done..]. apply (bool_decide_unpack _). by vm_compute.
Qed.

Lemma top_attacking_ips_ranking_witness :
  exists snap,
    get_dashboard_stats sample_wall ranked_ips = (Ok snap, tick ranked_ips) /\
    top_attacking_ips snap
    = [(VStr "B", 9%Z); (VStr "A", 5%Z); (VStr "C", 1%Z)].
Proof.
  destruct (top_attacking_ips_ranking sample_wall sample_link ranked_ips 10)
    as (snap & tops & Hrun & _ & _ & _ & _ & _ & _ & _ & Hex).
  { apply reachable_run_ops, reachable_init. }
  exists snap. split; [done|]. apply Hex. by vm_compute.
Defined.

(** C4 fails on the code: "A" and "B" both have count 1 and "B" was seen
    last, yet "A", which entered [ip_stats] first, is ranked first. *)
Lemma top_ips_tie_keeps_insertion_order :
  exists snap,
    get_dashboard_stats sample_wall tied_ips = (Ok snap, tick tied_ips) /\
    top_attacking_ips snap = [(VStr "A", 1%Z); (VStr "B", 1%Z)] /\
    od_get (VStr "A") (ip_stats (dashboard_data tied_ips))
    = Some (mkIPStat 1 (Some 1000000%Z)) /\
    od_get (VStr "B") (ip_stats (dashboard_data tied_ips))
    = Some (mkIPStat 1 (Some 4000000%Z)) /\
    ~ ties_by_last_seen (dashboard_data tied_ips) (top_attacking_ips snap).
Proof.
  exists (mkSnapshot 2 2 [(VStr "A", 1%Z); (VStr "B", 1%Z)]
            [(VStr "UDP", 2%Z)] [] [0; 1] [(0%Z, 2%Z)]).
  split_and!; try (by vm_compute).
  intros Hties.
  specialize (Hties 0 1 (VStr "A", 1%Z) (VStr "B", 1%Z)
                (mkIPStat 1 (Some 1000000%Z)) (mkIPStat 1 (Some 4000000%Z))).
  simpl in Hties.
  assert (4000000 <= 1000000)%Z; [|lia].
  apply Hties; try done; try lia; by vm_compute.
Qed.

Lemma add_traffic_data_never_rejects_witness :
  Forall (fun s => normal_count s = (total_requests s - anomaly_count s)%Z)
    (traffic_stats
       (dashboard_data (snd (add_traffic_data sample_wall 1 5 World_init))))
  /\
  Forall (fun s => 0 <= normal_count s)%Z
    (traffic_stats
       (dashboard_data
          (snd (poll_cycle sample_wall sample_link (Some [sample_record])
                           World_init)))).
Proof.
  destruct (add_traffic_data_never_rejects sample_wall sample_link World_init
              1 5 (Some [sample_record])) as (_ & _ & _ & H1 & H2).
  split; [apply H1, reachable_init | apply H2; constructor].
Defined.

(** C2 fails on the code: a sample with more anomalies than requests is
    accepted and stored with a negative [normal_count]. *)
Lemma add_traffic_data_accepts_invalid_sample :
  fst (add_traffic_data sample_wall 1 5 World_init) = Ok tt /\
  traffic_stats
    (dashboard_data (snd (add_traffic_data sample_wall 1 5 World_init)))
  = [mkTrafficSample 0 1 5 (-4)].
Proof. split; by vm_compute. Qed.

Lemma add_anomaly_sentinel_and_errors_witness :
  fst (add_anomaly sample_wall 0 empty_candidate) = Ok tt /\
  od_get (VStr "Unknown")
    (ip_stats (dashboard_data (snd (add_anomaly sample_wall 0
                                                empty_candidate))))
  = Some (mkIPStat 1 (Some 1000000%Z)).
Proof.
  assert (Hr : heap empty_candidate !! 0 = Some (∅ : record))
    by (by vm_compute).
  destruct (add_anomaly_sentinel_and_errors sample_wall empty_candidate 0 ∅ Hr)
    as (_ & _ & _ & Hok & Hcount & _).
  split; [by apply Hok|].
  destruct Hcount as [Hip _]; [|exact Hip].
  apply (bool_decide_unpack _). by vm_compute.
Defined.

(** C8 fails on the code in two ways.  A candidate whose [src_ip] is a JSON
    array makes [add_anomaly] raise [TypeError], with the record stored
    already and no counter updated; one whose [protocol] is a JSON object
    makes it raise with [ip_stats] updated as well.  For a candidate
    without any field the stored event holds the timestamp and nothing
    else: neither [score] nor [result] gets a value. *)
Lemma add_anomaly_raises_and_defaults_nothing :
  heap array_src_ip !! 0
  = Some ({[ "src_ip" := VNested "[1,2,3,4]"; "protocol" := VStr "TCP" ]}
          : record) /\
  fst (add_anomaly sample_wall 0 array_src_ip) = Raise TypeError /\
  anomaly_history
    (dashboard_data (snd (add_anomaly sample_wall 0 array_src_ip))) = [0] /\
  ip_stats (dashboard_data (snd (add_anomaly sample_wall 0 array_src_ip)))
  = [] /\
  heap object_protocol !! 0
  = Some ({[ "src_ip" := VStr "1.2.3.4"; "protocol" := VNested "{}" ]}
          : record) /\
  fst (add_anomaly sample_wall 0 object_protocol) = Raise TypeError /\
  anomaly_history
    (dashboard_data (snd (add_anomaly sample_wall 0 object_protocol))) = [0] /\
  ip_stats (dashboard_data (snd (add_anomaly sample_wall 0 object_protocol)))
  = [(VStr "1.2.3.4", mkIPStat 1 (Some 1000000%Z))] /\
  protocol_stats
    (dashboard_data (snd (add_anomaly sample_wall 0 object_protocol))) = [] /\
  heap empty_candidate !! 0 = Some (∅ : record) /\
  fst (add_anomaly sample_wall 0 empty_candidate) = Ok tt /\
  heap (snd (add_anomaly sample_wall 0 empty_candidate)) !! 0
  = Some ({[ "timestamp" := VTime 0 ]} : record) /\
  ({[ "timestamp" := VTime 0 ]} : record) !! "score" = None /\
  ({[ "timestamp" := VTime 0 ]} : record) !! "result" = None.
Proof. split_and!; by vm_compute. Qed.


(** ** Invariants of the dashboard data *)

Lemma preserves_get_dashboard_stats (I : World -> Prop) wall :
  (forall w, I w -> I (tick w)) -> preserves I (get_dashboard_stats wall).
Proof.
  intros Htick. unfold get_dashboard_stats.
  apply preserves_bind; [exact Htick|]. intros t.
  apply preserves_bind; [apply preserves_gets|]. intros d.
  apply preserves_bind; [|intros recent; apply preserves_ret].
  apply preserves_filter_m. intros a.
  apply preserves_bind; [apply preserves_dict_getitem|]. intros v.
  apply preserves_bind; [apply preserves_fromisoformat|]. intros t'.
  apply preserves_ret.
Qed.

Section world_invariant.
Variable wall : nat -> Z.
Variable link_up : nat -> conn -> bool.
Variable I : World -> Prop.
Hypothesis I_frame :
  forall w w',
    heap w' = heap w -> dashboard_data w' = dashboard_data w -> I w -> I w'.
Hypothesis I_alloc : forall w r, I w -> I (with_heap (fun h => h ++ [r]) w).
Hypothesis I_traffic :
  forall w f, I w -> I (with_data (with_traffic_stats f) w).
Hypothesis I_stamp :
  forall w a r,
    heap w !! a = Some r ->
    hashable (default (VStr "Unknown") (r !! "src_ip")) = false ->
    I w -> I (after_stamp wall w a r).
Hypothesis I_ip :
  forall w a r,
    heap w !! a = Some r ->
    hashable (default (VStr "Unknown") (r !! "src_ip")) = true ->
    hashable (default (VStr "Unknown") (r !! "protocol")) = false ->
    I w -> I (after_ip_update wall w a r).
Hypothesis I_add :
  forall w a r,
    heap w !! a = Some r -> well_keyed r ->
    I w -> I (after_add_anomaly wall w a r).

Lemma I_tick w : I w -> I (tick w).
Proof. by apply I_frame. Qed.

Lemma I_connections f w : I w -> I (with_connections f w).
Proof. by apply I_frame. Qed.

Lemma preserves_inv_add_anomaly a : preserves I (add_anomaly wall a).
Proof.
  intros w Hw. apply add_anomaly_cases.
  - intros _. by apply I_tick.
  - intros r Hr Hs. by apply I_stamp.
  - intros r Hr Hs Hp. by apply I_ip.
  - intros r Hr Hk. by apply I_add.
Qed.

Lemma preserves_inv_broadcast m : preserves I (broadcast link_up m).
Proof.
  apply preserves_broadcast.
  - intros f w. apply I_connections.
  - intros f w. by apply I_frame.
  - intros w. by apply I_frame.
Qed.

Lemma preserves_inv_add_traffic_data total anomalies :
  preserves I (add_traffic_data wall total anomalies).
Proof.
  intros w Hw. rewrite add_traffic_data_run. cbn [snd].
  by apply I_traffic, I_tick.
Qed.

Lemma preserves_inv_poll_cycle response :
  preserves I (poll_cycle wall link_up response).
Proof.
  apply preserves_try_except; [|intros _; apply preserves_ret].
  destruct response as [payload|]; [|apply preserves_ret].
  unfold poll_body.
  apply preserves_bind.
  { apply preserves_map_m. intros r w Hw. by apply I_alloc. }
  intros cands. apply preserves_bind.
  { apply preserves_for_each. intros a. unfold poll_candidate.
    apply preserves_bind; [apply preserves_gets|]. intros h.
    apply preserves_bind; [apply preserves_map_m, preserves_deref|].
    intros copies.
    apply preserves_bind; [apply preserves_deref|]. intros r.
    destruct (bool_decide _); [apply preserves_ret|].
    apply preserves_bind; [apply preserves_inv_add_anomaly|]. intros _.
    apply preserves_inv_broadcast. }
  intros _. apply preserves_bind.
  { apply preserves_filter_m. intros a.
    apply preserves_bind; [apply preserves_dict_get|].
    intros v. apply preserves_ret. }
  intros fl. apply preserves_inv_add_traffic_data.
Qed.

Lemma preserves_inv_run_op o : preserves I (run_op wall link_up o).
Proof.
  destruct o; simpl.
  - apply preserves_bind; [|intros _; apply preserves_ret].
    intros w Hw. by apply I_alloc.
  - apply preserves_connect. intros f w. apply I_connections.
  - apply preserves_connect. intros f w. apply I_connections.
  - apply preserves_remove_connection. intros f w. apply I_connections.
  - apply preserves_inv_broadcast.
  - apply preserves_inv_add_anomaly.
  - apply preserves_inv_add_traffic_data.
  - apply preserves_bind; [|intros _; apply preserves_ret].
    apply preserves_get_dashboard_stats. intros w. apply I_tick.
  - intros w Hw. exact Hw.
  - intros w Hw. exact Hw.
  - apply preserves_inv_poll_cycle.
Qed.

Lemma reachable_inv w : I World_init -> reachable wall link_up w -> I w.
Proof.
  intros Hinit. induction 1 as [|o w _ IH]; [exact Hinit|].
  by apply preserves_inv_run_op.
Qed.
End world_invariant.

(** *** Counter dicts *)

Section dd_alter_facts.
Context {K V : Type} `{EqDecision K}.
Implicit Types (d : list (K * V)) (k : K) (f g : V -> V).

Lemma dd_alter_compose (dflt : V) f g k d :
  dd_alter dflt g k (dd_alter dflt f k d)
  = dd_alter dflt (fun v => g (f v)) k d.
Proof.
  induction d as [|[k' v] d IH]; simpl.
  - by rewrite decide_True.
  - destruct (decide (k = k')) as [->|Hne]; simpl.
    + by rewrite decide_True.
    + by rewrite decide_False, IH.
Qed.

Lemma total_of_dd_alter (m : V -> Z) (dflt : V) f k d :
  m dflt = 0%Z ->
  total_of m (dd_alter dflt f k d)
  = (total_of m d + m (f (default dflt (od_get k d)))
     - m (default dflt (od_get k d)))%Z.
Proof.
  intros Hd. induction d as [|[k' v] d IH]; simpl.
  - rewrite Hd. lia.
  - destruct (decide (k = k')) as [->|Hne]; simpl; [lia|].
    rewrite IH. lia.
Qed.

Lemma dd_alter_keys (dflt : V) f k d :
  map fst (dd_alter dflt f k d)
  = if decide (k ∈ map fst d) then map fst d else map fst d ++ [k].
Proof.
  induction d as [|[k' v] d IH]; cbn [dd_alter map fst].
  - destruct (decide (k ∈ [])) as [Hin|_]; [|done].
    by apply elem_of_nil in Hin.
  - destruct (decide (k = k')) as [->|Hne]; cbn [map fst].
    + destruct (decide (k' ∈ k' :: map fst d)) as [_|Hout]; [done|].
      destruct Hout. apply list_elem_of_here.
    + rewrite IH.
      destruct (decide (k ∈ map fst d)) as [Hin|Hout];
        destruct (decide (k ∈ k' :: map fst d)) as [Hin'|Hout'];
        try done.
      * destruct Hout'. by apply list_elem_of_further.
      * apply elem_of_cons in Hin' as [?|?]; done.
Qed.

Lemma dd_alter_NoDup (dflt : V) f k d :
  NoDup (map fst d) -> NoDup (map fst (dd_alter dflt f k d)).
Proof.
  intros Hnd. rewrite dd_alter_keys.
  destruct (decide _) as [Hin|Hout]; [done|].
  apply NoDup_app. split_and!; [done| |apply NoDup_singleton].
  intros x Hx Hk. apply list_elem_of_singleton in Hk. by subst.
Qed.

Lemma od_get_NoDup k (v : V) d :
  NoDup (map fst d) -> (k, v) ∈ d -> od_get k d = Some v.
Proof.
  induction d as [|[k' v'] d IH]; simpl; intros Hnd Hin.
  { by apply elem_of_nil in Hin. }
  apply NoDup_cons in Hnd as [Hk' Hnd].
  apply elem_of_cons in Hin as [[= -> ->]|Hin].
  - by rewrite decide_True.
  - rewrite decide_False; [by apply IH|]. intros ->. apply Hk'.
    by apply (list_elem_of_fmap_2 fst) in Hin.
Qed.

Lemma dd_alter_Forall (Q : K * V -> Prop) (dflt : V) f k d :
  Forall Q d -> Q (k, f dflt) -> (forall v, Q (k, v) -> Q (k, f v)) ->
  Forall Q (dd_alter dflt f k d).
Proof.
  intros Hall Hnew Hupd. induction Hall as [|[k' v] d Hx Hall IH]; simpl.
  - by constructor.
  - destruct (decide (k = k')) as [->|Hne]; constructor; auto.
Qed.
End dd_alter_facts.

Section Counters.
Variable wall : nat -> Z.
Variable link_up : nat -> conn -> bool.

Lemma deque_append_length_min {A} (x : A) d :
  length d <= 1000 ->
  length (deque_append 1000 x d) = Nat.min 1000 (S (length d)).
Proof.
  intros Hb.
  destruct (decide (length d = 1000)) as [Hfull|Hroom].
  - rewrite deque_append_full by (done || lia).
    rewrite length_app, length_drop. cbn [length]. lia.
  - rewrite deque_append_room by lia.
    rewrite length_app. cbn [length]. lia.
Qed.

Lemma counters_agree_after_add_anomaly w a r :
  length (anomaly_history (dashboard_data w)) <= 1000 ->
  counters_agree (dashboard_data w) ->
  counters_agree (dashboard_data (after_add_anomaly wall w a r)).
Proof.
  intros Hb [Hp Hh Hl]. split; simpl.
  - rewrite dd_alter_compose, !total_of_dd_alter by done.
    simpl. unfold id in *. lia.
  - rewrite dd_alter_compose, !total_of_dd_alter by done.
    simpl. unfold id in *. lia.
  - rewrite dd_alter_compose, total_of_dd_alter by done. simpl.
    rewrite deque_append_length_min by done. lia.
Qed.

Lemma counters_bounded_after_add_anomaly w a r :
  counters_bounded (dashboard_data w) ->
  counters_bounded (dashboard_data (after_add_anomaly wall w a r)).
Proof.
  intros [Hh Hp Hl]. split; simpl.
  - rewrite !total_of_dd_alter by done. simpl. unfold id in *. lia.
  - rewrite dd_alter_compose, !total_of_dd_alter by done.
    simpl. unfold id in *. lia.
  - rewrite dd_alter_compose, total_of_dd_alter by done. simpl.
    rewrite deque_append_length_min by lia. lia.
Qed.

Lemma counters_bounded_after_ip_update w a r :
  counters_bounded (dashboard_data w) ->
  counters_bounded (dashboard_data (after_ip_update wall w a r)).
Proof.
  intros [Hh Hp Hl]. split; simpl.
  - done.
  - rewrite dd_alter_compose, !total_of_dd_alter by done.
    simpl. unfold id in *. lia.
  - rewrite dd_alter_compose, total_of_dd_alter by done. simpl.
    rewrite deque_append_length_min by lia. lia.
Qed.

Lemma counters_bounded_after_stamp w a r :
  counters_bounded (dashboard_data w) ->
  counters_bounded (dashboard_data (after_stamp wall w a r)).
Proof.
  intros [Hh Hp Hl]. split; simpl; try done.
  rewrite deque_append_length_min by lia. lia.
Qed.

Lemma reachable_counters_bounded w :
  reachable wall link_up w -> counters_bounded (dashboard_data w).
Proof.
  intros Hreach.
  apply (reachable_inv wall link_up
           (fun w => counters_bounded (dashboard_data w))).
  - intros w0 w1 _ Hd. by rewrite Hd.
  - intros w0 r Hw0. exact Hw0.
  - intros w0 f []. by split.
  - intros w0 a r _ _. apply counters_bounded_after_stamp.
  - intros w0 a r _ _ _. apply counters_bounded_after_ip_update.
  - intros w0 a r _ _. apply counters_bounded_after_add_anomaly.
  - split; simpl; lia.
  - exact Hreach.
Qed.

(** A store whose records are all well keyed held only such records
    before the record at [a] was stamped. *)
Lemma well_keyed_before_stamp (h : list record) a r t :
  h !! a = Some r ->
  Forall well_keyed (<[a := stamp t r]> h) -> Forall well_keyed h.
Proof.
  intros Hr Hall. rewrite Forall_lookup in Hall. apply Forall_lookup.
  intros i x Hx. destruct (decide (i = a)) as [->|Hne].
  - assert (x = r) as -> by congruence.
    apply (well_keyed_stamp t). apply (Hall a).
    apply list_lookup_insert_eq. by eapply lookup_lt_Some.
  - apply (Hall i). by rewrite list_lookup_insert_ne.
Qed.

Lemma reachable_counters_agree w :
  reachable wall link_up w ->
  Forall well_keyed (heap w) -> counters_agree (dashboard_data w).
Proof.
  intros Hreach.
  apply (reachable_inv wall link_up
           (fun w => counters_bounded (dashboard_data w) /\
                     (Forall well_keyed (heap w) ->
                      counters_agree (dashboard_data w)))).
  - intros w0 w1 Hh Hd. by rewrite Hh, Hd.
  - intros w0 r [Hb Hw0]. split; [done|]. simpl. intros Hall.
    apply Forall_app in Hall as [Hall _]. auto.
  - intros w0 f [[] Hw0]. split; [by split|]. simpl. intros Hall.
    destruct (Hw0 Hall). by split.
  - intros w0 a r Hr Hs [Hb Hw0]. split.
    { by apply counters_bounded_after_stamp. }
    simpl. intros Hall. exfalso.
    apply well_keyed_before_stamp in Hall; [|done].
    rewrite Forall_lookup in Hall. destruct (Hall a r Hr) as [Hk _].
    by rewrite Hs in Hk.
  - intros w0 a r Hr Hs Hp [Hb Hw0]. split.
    { by apply counters_bounded_after_ip_update. }
    simpl. intros Hall. exfalso.
    apply well_keyed_before_stamp in Hall; [|done].
    rewrite Forall_lookup in Hall. destruct (Hall a r Hr) as [_ Hk].
    by rewrite Hp in Hk.
  - intros w0 a r Hr Hk [Hb Hw0]. split.
    { by apply counters_bounded_after_add_anomaly. }
    intros Hall. apply counters_agree_after_add_anomaly.
    + destruct Hb as [_ _ Hl]. lia.
    + apply Hw0. simpl in Hall. by eapply well_keyed_before_stamp.
  - split; [split; simpl; lia|]. intros _. split; simpl; lia.
  - exact Hreach.
Qed.

(** X1: in every reachable state the protocol and hour counters account
    for the same number of events, the IP counters for at least as many,
    and [anomaly_history] holds at least as many events as the IP
    counters count, capped at 1000: an event whose [src_ip] or
    [protocol] is unhashable is stored and then counted only up to the
    dict that raises.  When every record fetched so far has hashable
    [src_ip] and [protocol], the three counter dicts account for the
    same number of events and the history holds exactly that many,
    capped at 1000: the counters keep growing after the history is
    full. *)
Theorem counters_agree_with_history (w : World) :
  reachable wall link_up w ->
  let d := dashboard_data w in
  let n := total_of count (ip_stats d) in
  total_of id (hourly_stats d) = total_of id (protocol_stats d) /\
  (total_of id (protocol_stats d) <= n)%Z /\
  (Z.min 1000 n <= Z.of_nat (length (anomaly_history d)) <= 1000)%Z /\
  (Forall well_keyed (heap w) ->
     total_of id (protocol_stats d) = n /\
     total_of id (hourly_stats d) = n /\
     Z.of_nat (length (anomaly_history d)) = Z.min 1000 n).
Proof.
  intros Hreach d n.
  destruct (reachable_counters_bounded w Hreach) as [Hh Hp Hl].
  split; [exact Hh|]. split; [exact Hp|]. split; [exact Hl|].
  intros Hall. by destruct (reachable_counters_agree w Hreach Hall).
Qed.

Lemma counters_wf_after_ip_update w a r :
  counters_wf (dashboard_data w) ->
  counters_wf (dashboard_data (after_ip_update wall w a r)).
Proof.
  intros [Hik Hpk Hhk Hi Hp Hh]. split; simpl; try done.
  - by do 2 apply dd_alter_NoDup.
  - rewrite dd_alter_compose. apply dd_alter_Forall; [done|..]; simpl.
    + split; [lia|eauto].
    + intros v [Hc _]. split; [lia|eauto].
Qed.

Lemma counters_wf_after_add_anomaly w a r :
  counters_wf (dashboard_data w) ->
  counters_wf (dashboard_data (after_add_anomaly wall w a r)).
Proof.
  intros [Hik Hpk Hhk Hi Hp Hh]. split; simpl.
  - by do 2 apply dd_alter_NoDup.
  - by apply dd_alter_NoDup.
  - by apply dd_alter_NoDup.
  - rewrite dd_alter_compose. apply dd_alter_Forall; [done|..]; simpl.
    + split; [lia|eauto].
    + intros v [Hc _]. split; [lia|eauto].
  - apply dd_alter_Forall; [done|..]; simpl; [lia|]. intros v Hv. lia.
  - apply dd_alter_Forall; [done|..]; simpl.
    + split; [|lia]. unfold hour_bucket. apply Z.mod_pos_bound. lia.
    + intros v [Hk Hv]. split; [done|lia].
Qed.

Lemma reachable_counters_wf w :
  reachable wall link_up w -> counters_wf (dashboard_data w).
Proof.
  intros Hreach.
  apply (reachable_inv wall link_up
           (fun w => counters_wf (dashboard_data w))).
  - intros w0 w1 _ Hd. by rewrite Hd.
  - intros w0 r Hw0. exact Hw0.
  - intros w0 f []. by split.
  - intros w0 a r _ _ []. by split.
  - intros w0 a r _ _ _. apply counters_wf_after_ip_update.
  - intros w0 a r _ _. apply counters_wf_after_add_anomaly.
  - split; simpl; constructor.
  - exact Hreach.
Qed.

(** X2: in every reachable state each counter dict has one entry per key;
    every IP entry has a count of at least 1 and a [last_seen] that is
    set; every protocol and hour entry counts at least 1; the hour keys
    are hours of the day. *)
Theorem counters_entries_well_formed (w : World) :
  reachable wall link_up w ->
  let d := dashboard_data w in
  NoDup (map fst (ip_stats d)) /\
  NoDup (map fst (protocol_stats d)) /\
  NoDup (map fst (hourly_stats d)) /\
  (forall k s, (k, s) ∈ ip_stats d ->
     (1 <= count s)%Z /\ is_Some (last_seen s) /\
     od_get k (ip_stats d) = Some s) /\
  (forall k n, (k, n) ∈ protocol_stats d -> (1 <= n)%Z) /\
  (forall h n, (h, n) ∈ hourly_stats d -> (0 <= h < 24)%Z /\ (1 <= n)%Z).
Proof.
  intros Hreach d.
  destruct (reachable_counters_wf w Hreach) as [Hik Hpk Hhk Hi Hp Hh].
  rewrite Forall_forall in Hi. rewrite Forall_forall in Hp.
  rewrite Forall_forall in Hh.
  split_and!; try done.
  - intros k s Hin. destruct (Hi _ Hin) as [Hc Hs]. split_and!; try done.
    by apply od_get_NoDup.
  - intros k n Hin. apply (Hp _ Hin).
  - intros h n Hin. apply (Hh _ Hin).
Qed.
End Counters.

(** ** The connection manager, continued *)

(** X9: [connect] registers the observer once its handshake is accepted,
    and raises without registering anything when the handshake fails.
    Connecting an observer and disconnecting it again restores the live
    list when the observer was not connected before; when it was, the
    earlier entry is the one removed and the new one stays last. *)
Theorem connect_disconnect_round_trip (w : World) (c : conn) :
  let live (w : World) := active_connections (manager w) in
  let w' := snd (disconnect c (snd (connect true c w))) in
  connect false c w = (Raise AcceptError, w) /\
  connect true c w = (Ok tt, with_connections (fun l => l ++ [c]) w) /\
  fst (disconnect c (snd (connect true c w))) = Ok tt /\
  ((c ∉ live w) -> w' = w) /\
  (forall l1 l2, live w = l1 ++ (c :: l2) -> (c ∉ l1) ->
     live w' = l1 ++ l2 ++ [c]).
Proof.
  intros live w'. subst w'.
  assert (Hc : connect true c w
               = (Ok tt, with_connections (fun l => l ++ [c]) w))
    by reflexivity.
  split; [reflexivity|]. split; [exact Hc|].
  rewrite disconnect_run, Hc.
  cbn [fst snd with_connections active_connections manager].
  destruct (decide (c ∈ live w)) as [Hin|Hout].
  - apply list_elem_of_split_l in Hin as (l1 & l2 & Hl & Hc1).
    subst live. cbv beta in *. rewrite Hl, <- app_assoc.
    cbn [app]. rewrite list_remove_middle by done.
    split_and!; try done.
    + intros Hout. destruct Hout. rewrite elem_of_app, elem_of_cons. auto.
    + intros k1 k2 Heq Hk1. simpl.
      assert (Hlen : length k1 = length l1).
      { destruct (Nat.lt_trichotomy (length k1) (length l1))
          as [Hlt|[?|Hlt]]; [|done|]; exfalso.
        - apply Hc1. apply list_elem_of_lookup. exists (length k1).
          rewrite <- (lookup_app_l _ (c :: l2)) by done.
          by rewrite Heq, list_lookup_middle.
        - apply Hk1. apply list_elem_of_lookup. exists (length l1).
          rewrite <- (lookup_app_l _ (c :: k2)) by done.
          by rewrite <- Heq, list_lookup_middle. }
      apply app_inj_1 in Heq as [-> [= ->]]; done.
  - rewrite (list_remove_middle c (live w) []) by done.
    rewrite app_nil_r. split_and!; try done.
    + intros _. destruct w as [? ? ? ? [?] ?]. done.
    + intros l1 l2 Hl _. destruct Hout. subst live. cbv beta in *.
      rewrite Hl, elem_of_app, elem_of_cons. auto.
Qed.

Section Manager_frame.
Variable link_up : nat -> conn -> bool.

End Manager_frame.

(** ** The query endpoints, continued *)

(** X7: [get_recent_anomalies] with a negative limit returns the history
    without its [-limit] oldest entries, and with a limit of at least the
    history length the whole history; it never fails and changes
    nothing. *)
Theorem get_recent_anomalies_edge_limits (w : World) (limit : Z) :
  let h := anomaly_history (dashboard_data w) in
  exists recent,
    get_recent_anomalies limit w = (Ok (recent, length h), w) /\
    recent `suffix_of` h /\
    ((limit < 0)%Z -> recent = drop (Z.to_nat (- limit)) h) /\
    ((Z.of_nat (length h) <= limit)%Z -> recent = h).
Proof.
  intros h. exists (slice_from (- limit) h). split; [reflexivity|].
  clearbody h. unfold slice_from, slice_bound. split_and!.
  - apply suffix_drop.
  - intros Hneg. destruct (Z.ltb_spec (- limit) 0); [lia|].
    destruct (decide (- limit <= Z.of_nat (length h))%Z).
    + f_equal. lia.
    + rewrite !drop_ge by lia. done.
  - intros Hbig. destruct (Z.ltb_spec (- limit) 0).
    + replace (Z.to_nat _) with 0 by lia. done.
    + replace (Z.to_nat _) with 0 by lia. done.
Qed.

Lemma slice_bound_le len i : slice_bound len i <= len.
Proof. unfold slice_bound. destruct (Z.ltb_spec i 0); lia. Qed.

Section Queries.
Variable wall : nat -> Z.
Variable link_up : nat -> conn -> bool.

(** X8: [get_top_ips] never fails and changes nothing; every entry it
    returns shows the count and [last_seen] stored for that IP, no IP is
    listed twice, and the list is sorted by count, descending.  A limit
    of 0 gives the empty list, a limit beyond the number of IPs gives
    them all, and a negative limit cuts that many entries off the end of
    the ranking: whatever the limit, the result is a prefix of the full
    ranking. *)
Theorem get_top_ips_entries (w : World) (limit : Z) :
  reachable wall link_up w ->
  let stats := ip_stats (dashboard_data w) in
  exists tops,
    get_top_ips limit w = (Ok tops, w) /\
    (forall t, t ∈ tops ->
       od_get (ip t) stats = Some (mkIPStat (ip_count t) (ip_last_seen t))) /\
    NoDup (map ip tops) /\
    StronglySorted (desc ip_count) tops /\
    ((0 <= limit)%Z ->
       length tops = Nat.min (Z.to_nat limit) (length stats)) /\
    ((limit < 0)%Z -> length tops = length stats - Z.to_nat (- limit)) /\
    (exists ranking,
       get_top_ips (Z.of_nat (length stats)) w = (Ok ranking, w) /\
       length ranking = length stats /\
       tops = take (length tops) ranking).
Proof.
  intros Hreach stats.
  destruct (reachable_counters_wf wall link_up w Hreach)
    as [Hkeys _ _ _ _ _]. fold stats in Hkeys.
  set (g := fun '(i, data) => (i, count data, last_seen data)
            : value * Z * option Z).
  set (mk := fun '(i, c, l) => mkTopIp i c l).
  set (T := sorted_desc (fun x : value * Z * option Z => snd (fst x))
                        (map g stats)).
  set (n := slice_bound (length T) limit).
  assert (Hperm : T ≡ₚ map g stats) by apply sorted_desc_perm.
  assert (HlenT : length T = length stats).
  { by rewrite Hperm, length_map. }
  exists (map mk (take n T)). split; [reflexivity|]. split_and!.
  - intros t Ht. apply list_elem_of_fmap in Ht as (x & -> & Hx).
    apply elem_of_take in Hx as (i & Hi & _).
    apply list_elem_of_lookup_2 in Hi. rewrite Hperm in Hi.
    rename Hi into Hx.
    apply list_elem_of_fmap in Hx as ([k st] & -> & Hin).
    simpl. rewrite (od_get_NoDup k st stats Hkeys Hin). by destruct st.
  - rewrite map_map.
    rewrite (map_ext _ (fun x => fst (fst x))) by (by intros [[? ?] ?]).
    rewrite <- firstn_map.
    assert (Hp2 : map (fun x : value * Z * option Z => fst (fst x)) T
                  ≡ₚ map fst stats).
    { rewrite (Permutation_map _ Hperm), map_map.
      by rewrite (map_ext _ fst) by (by intros [? ?]). }
    eapply sublist_NoDup; [|apply sublist_take]. by rewrite Hp2.
  - pose proof (sorted_desc_sorted
                  (fun x : value * Z * option Z => snd (fst x))
                  (map g stats)) as Hs.
    fold T in Hs. rewrite <- (take_drop n T) in Hs.
    apply StronglySorted_app_1_l in Hs.
    induction Hs as [|x l Hl IH Hx]; simpl; constructor; [done|].
    apply Forall_fmap. eapply Forall_impl; [exact Hx|].
    intros [[? ?] ?]. by destruct x as [[? ?] ?].
  - intros Hpos. rewrite length_map, length_take, HlenT.
    subst n. unfold slice_bound. rewrite HlenT.
    destruct (Z.ltb_spec limit 0); lia.
  - intros Hneg. rewrite length_map, length_take, HlenT.
    subst n. unfold slice_bound. rewrite HlenT.
    destruct (Z.ltb_spec limit 0); lia.
  - exists (map mk T). split_and!.
    + unfold get_top_ips. rewrite run_bind, run_gets, run_ret.
      fold stats g T. do 3 f_equal. unfold slice_to.
      replace (slice_bound (length T) (Z.of_nat (length stats)))
        with (length T); [by rewrite firstn_all|].
      unfold slice_bound. rewrite HlenT.
      destruct (Z.ltb_spec (Z.of_nat (length stats)) 0); lia.
    + by rewrite length_map.
    + rewrite length_map, length_take, firstn_map. f_equal.
      destruct (Nat.min_spec n (length T)) as [[_ ->]|[Hge ->]];
        [done|].
      by rewrite !take_ge by lia.
Qed.

(** X6: a snapshot never fails in a reachable state and leaves everything
    but the clock reading as it was; [total_anomalies] is the history
    length, at most 1000, and never below [recent_anomalies_count];
    [recent_anomalies] and [traffic_trend] are the last 20 entries and
    the last 24 samples, in insertion order; the two distributions are
    the full counter dicts. *)
Theorem get_dashboard_stats_windows (w : World) :
  reachable wall link_up w ->
  let d := dashboard_data w in
  exists snap,
    get_dashboard_stats wall w = (Ok snap, tick w) /\
    total_anomalies snap = length (anomaly_history d) /\
    total_anomalies snap <= 1000 /\
    recent_anomalies_count snap <= total_anomalies snap /\
    recent_anomalies snap
    = drop (length (anomaly_history d) - 20) (anomaly_history d) /\
    length (recent_anomalies snap) <= 20 /\
    traffic_trend snap
    = drop (length (traffic_stats d) - 24) (traffic_stats d) /\
    length (traffic_trend snap) <= 24 /\
    protocol_distribution snap = protocol_stats d /\
    hourly_distribution snap = hourly_stats d.
Proof.
  intros Hreach d.
  pose proof (reachable_wf _ _ _ Hreach) as Hwf.
  eexists. split; [by apply get_dashboard_stats_run|].
  destruct Hwf as [Hb _ _ _]. fold d in Hb.
  cbn [total_anomalies recent_anomalies_count recent_anomalies
       traffic_trend protocol_distribution hourly_distribution].
  fold d. rewrite (slice_from_last 20), (slice_from_last 24) by lia.
  split_and!; try done.
  - apply length_filter.
  - rewrite length_drop. lia.
  - rewrite length_drop. lia.
Qed.
End Queries.

(** ** Ingestion, continued *)

Section Ingestion_more.
Variable wall : nat -> Z.
Variable link_up : nat -> conn -> bool.

(** X11: the dedup check does fire for a candidate that equals a stored
    event field for field, timestamp included: the loop body then
    changes nothing, reads no clock and sends nothing. *)
Theorem poll_candidate_skips_exact_copy (w : World) (a b : loc) (r : record) :
  reachable wall link_up w ->
  heap w !! a = Some r ->
  b ∈ anomaly_history (dashboard_data w) ->
  heap w !! b = Some r ->
  poll_candidate wall link_up a w = (Ok tt, w).
Proof.
  intros Hreach Ha Hb Hrb.
  rewrite (poll_candidate_run _ _ _ _ _ (reachable_wf _ _ _ Hreach) Ha).
  rewrite bool_decide_eq_true_2; [done|].
  unfold contents. apply list_elem_of_omap. eauto.
Qed.

(** The object handed to [add_anomaly] is stamped whether the call
    returns or raises. *)
Lemma add_anomaly_stamps w a r :
  heap w !! a = Some r ->
  heap (snd (add_anomaly wall a w)) !! a
  = Some (stamp (wall (ticks w)) r).
Proof.
  intros Hr.
  assert (Hlt : a < length (heap w)) by by eapply lookup_lt_Some.
  apply add_anomaly_cases.
  - intros Hnone. congruence.
  - intros r' Hr' _. assert (r' = r) as -> by congruence.
    by apply list_lookup_insert_eq.
  - intros r' Hr' _ _. assert (r' = r) as -> by congruence.
    by apply list_lookup_insert_eq.
  - intros r' Hr' _. assert (r' = r) as -> by congruence.
    by apply list_lookup_insert_eq.
Qed.

Lemma add_anomaly_ok_well_keyed w a r :
  heap w !! a = Some r ->
  fst (add_anomaly wall a w) = Ok tt -> well_keyed r.
Proof.
  intros Hr. rewrite (add_anomaly_outcome _ _ _ _ Hr). unfold well_keyed.
  destruct (hashable (default (VStr "Unknown") (r !! "src_ip")));
    [|done].
  destruct (hashable (default (VStr "Unknown") (r !! "protocol")));
    done.
Qed.

(** X4: ingesting the same dict object twice stores two references to one
    object: the second call overwrites the timestamp of the event that
    is already in the history with its own first clock reading, which is
    the fourth reading from the start when the first call returned, and
    no object is added to the store. *)
Theorem add_anomaly_same_object_twice (w : World) (a : loc) (r : record) :
  reachable wall link_up w ->
  heap w !! a = Some r ->
  let w1 := snd (add_anomaly wall a w) in
  let w2 := snd (add_anomaly wall a w1) in
  ingested_at (heap w1) a = Some (wall (ticks w)) /\
  (fst (add_anomaly wall a w) = Ok tt ->
     ingested_at (heap w2) a = Some (wall (3 + ticks w)) /\
     heap w2 !! a = Some (stamp (wall (3 + ticks w)) r) /\
     fst (add_anomaly wall a w1) = Ok tt) /\
  ingested_at (heap w2) a = Some (wall (ticks w1)) /\
  heap w2 !! a = Some (stamp (wall (ticks w1)) r) /\
  length (heap w2) = length (heap w) /\
  [a; a] `suffix_of` anomaly_history (dashboard_data w2).
Proof.
  intros Hreach Hr w1 w2.
  destruct (reachable_wf _ _ _ Hreach) as [Hb _ _ _].
  assert (Hlt : a < length (heap w)) by by eapply lookup_lt_Some.
  assert (Hr1 : heap w1 !! a = Some (stamp (wall (ticks w)) r))
    by by apply add_anomaly_stamps.
  assert (Hst : forall t, stamp t (stamp (wall (ticks w)) r) = stamp t r).
  { intros t. unfold stamp. by rewrite insert_insert_eq. }
  assert (Hr2 : heap w2 !! a = Some (stamp (wall (ticks w1)) r)).
  { subst w2. rewrite (add_anomaly_stamps _ _ _ Hr1). by rewrite Hst. }
  assert (Hing : forall h t, h !! a = Some (stamp t r) ->
                             ingested_at h a = Some t).
  { intros h t Hh. unfold ingested_at. rewrite Hh. unfold stamp.
    by rewrite lookup_insert_eq. }
  destruct (add_anomaly_appends wall w a Hlt) as (Hh1 & _ & _ & Hl1).
  fold w1 in Hh1, Hl1.
  assert (Hlt1 : a < length (heap w1)) by by rewrite Hl1.
  destruct (add_anomaly_appends wall w1 a Hlt1) as (Hh2 & _ & _ & Hl2).
  fold w2 in Hh2, Hl2.
  split_and!.
  - by apply Hing.
  - intros Hok.
    pose proof (add_anomaly_ok_well_keyed _ _ _ Hr Hok) as Hk.
    assert (Hticks : ticks w1 = 3 + ticks w).
    { subst w1. by rewrite (add_anomaly_run _ _ _ _ Hr Hk). }
    rewrite <- Hticks. split_and!; [by apply Hing | done |].
    erewrite add_anomaly_run; [done | exact Hr1 |].
    by apply well_keyed_stamp.
  - by apply Hing.
  - done.
  - by rewrite Hl2, Hl1.
  - rewrite Hh2, Hh1.
    pose proof (deque_append_foldl 1000 [a; a]
                  (anomaly_history (dashboard_data w))) as Hf.
    simpl in Hf. rewrite Hf by lia.
    set (h := anomaly_history (dashboard_data w)) in *.
    rewrite drop_app_le by (rewrite length_app; simpl; lia).
    by apply suffix_app_r.
Qed.
End Ingestion_more.

(** ** Traffic samples *)

Lemma filter_seq_length {A} (P : nat -> Prop) (Q : A -> Prop)
    `{forall i, Decision (P i)} `{forall x, Decision (Q x)} (l : list A) n :
  (forall i x, l !! i = Some x -> (P (n + i) <-> Q x)) ->
  length (filter P (seq n (length l))) = length (filter Q l).
Proof.
  revert n. induction l as [|x l IH]; intros n HPQ; [done|].
  cbn [length seq].
  assert (Hx : P n <-> Q x).
  { rewrite <- (HPQ 0 x eq_refl). by rewrite Nat.add_0_r. }
  assert (Hrest :
    length (filter P (seq (S n) (length l))) = length (filter Q l)).
  { apply IH. intros i y Hy. rewrite <- (HPQ (S i) y Hy).
    by replace (n + S i) with (S n + i) by lia. }
  rewrite !filter_cons.
  destruct (decide (P n)) as [HP|HP], (decide (Q x)) as [HQ|HQ];
    simpl; try tauto; by rewrite Hrest.
Qed.

Section Traffic.
Variable wall : nat -> Z.
Variable link_up : nat -> conn -> bool.

(** The samples a run of [add_traffic_data] calls stores, the first at
    clock reading [k]. *)
Lemma for_each_add_traffic_data args w :
  exists w',
    for_each args (fun '(t, n) => add_traffic_data wall t n) w
    = (Ok tt, w') /\
    traffic_stats (dashboard_data w')
    = foldl (fun d s => deque_append 100 s d)
            (traffic_stats (dashboard_data w))
            (imap (fun i '(t, n) =>
                     mkTrafficSample (wall (ticks w + i)) t n (t - n)%Z)
                  args) /\
    anomaly_history (dashboard_data w')
    = anomaly_history (dashboard_data w) /\
    heap w' = heap w.
Proof.
  revert w. induction args as [|[t n] args IH]; intros w.
  { exists w. done. }
  destruct (IH (snd (add_traffic_data wall t n w)))
    as (w' & Hrun & Ht & Hh & Hheap).
  exists w'. split_and!.
  - rewrite for_each_cons. cbv beta iota.
    rewrite (run_bind_ok _ _ _ _ _ (add_traffic_data_run wall w t n)).
    exact Hrun.
  - rewrite Ht. simpl. rewrite Nat.add_0_r. f_equal.
    apply imap_ext. intros i [t' n'] _. simpl.
    do 2 f_equal. lia.
  - by rewrite Hh.
  - by rewrite Hheap.
Qed.

(** X5: any run of [add_traffic_data] calls from a reachable state leaves in
    [traffic_stats] the last 100 of the samples stored before and during
    the run, in insertion order, each stamped with its own clock reading:
    after 150 calls exactly the last 100 samples of the run remain. *)
Theorem traffic_stats_keeps_last_100 (w : World) (args : list (Z * Z)) :
  reachable wall link_up w ->
  let run := for_each args (fun '(t, n) => add_traffic_data wall t n) w in
  let new := imap (fun i '(t, n) =>
                     mkTrafficSample (wall (ticks w + i)) t n (t - n)%Z)
                  args in
  let all := traffic_stats (dashboard_data w) ++ new in
  fst run = Ok tt /\
  traffic_stats (dashboard_data (snd run)) = drop (length all - 100) all /\
  length (traffic_stats (dashboard_data (snd run)))
  = Nat.min 100 (length all) /\
  (100 <= length args ->
     traffic_stats (dashboard_data (snd run))
     = drop (length args - 100) new) /\
  anomaly_history (dashboard_data (snd run))
  = anomaly_history (dashboard_data w).
Proof.
  intros Hreach run new all.
  destruct (reachable_wf _ _ _ Hreach) as [_ Hb _ _].
  destruct (for_each_add_traffic_data args w) as (w' & Hrun & Ht & Hh & _).
  subst run. rewrite Hrun. cbn [fst snd].
  assert (Hall :
    traffic_stats (dashboard_data w') = drop (length all - 100) all).
  { rewrite Ht. by apply deque_append_foldl; [lia|]. }
  assert (Hnew : length new = length args) by apply length_imap.
  split_and!; try done.
  - rewrite Hall, length_drop. lia.
  - intros Hlen. rewrite Hall. subst all.
    rewrite length_app, Hnew.
    set (old := traffic_stats (dashboard_data w)) in *.
    replace (length old + length args - 100)
      with (length old + (length args - 100)) by lia.
    by rewrite drop_app_add.
Qed.

Lemma broadcast_no_observer m w :
  active_connections (manager w) = [] ->
  broadcast link_up m w = (Ok tt, next_broadcast w).
Proof.
  intros Hlive. unfold broadcast.
  erewrite run_bind_ok by apply run_gets.
  erewrite run_bind_ok by apply run_modify.
  erewrite run_bind_ok by apply run_gets.
  cbn [active_connections manager next_broadcast]. by rewrite Hlive.
Qed.

(** With no observer connected a poll cycle sends nothing and connects
    nobody. *)
Lemma preserves_quiet_poll_cycle (sent : list (conn * frame)) response :
  preserves (fun w => active_connections (manager w) = [] /\ wire w = sent)
            (poll_cycle wall link_up response).
Proof.
  apply preserves_try_except; [|intros _; apply preserves_ret].
  destruct response as [payload|]; [|apply preserves_ret].
  unfold poll_body.
  apply preserves_bind.
  { apply preserves_map_m. intros r w Hw. exact Hw. }
  intros cands. apply preserves_bind.
  { apply preserves_for_each. intros a. unfold poll_candidate.
    apply preserves_bind; [apply preserves_gets|]. intros h.
    apply preserves_bind; [apply preserves_map_m, preserves_deref|].
    intros copies.
    apply preserves_bind; [apply preserves_deref|]. intros r.
    destruct (bool_decide _); [apply preserves_ret|].
    apply preserves_bind.
    - intros w Hw.
      by apply (add_anomaly_cases wall
                  (fun w => active_connections (manager w) = [] /\
                            wire w = sent)).
    - intros _ w [Hlive Hw]. by rewrite broadcast_no_observer. }
  intros _. apply preserves_bind.
  { apply preserves_filter_m. intros a.
    apply preserves_bind; [apply preserves_dict_get|].
    intros v. apply preserves_ret. }
  intros fl w Hw. rewrite add_traffic_data_run. exact Hw.
Qed.

(** The loop of the poller over well-keyed candidates without a
    timestamp field: each is ingested with three clock readings, none
    touches the traffic samples. *)
Lemma for_each_poll_candidate_clock cands w :
  wf w -> NoDup cands ->
  Forall (fun a => exists r, heap w !! a = Some r /\ well_keyed r /\
                             r !! "timestamp" = None) cands ->
  exists w',
    for_each cands (poll_candidate wall link_up) w = (Ok tt, w') /\
    ticks w' = ticks w + 3 * length cands /\
    traffic_stats (dashboard_data w') = traffic_stats (dashboard_data w) /\
    delete "timestamp" <$> heap w' = delete "timestamp" <$> heap w.
Proof.
  revert w. induction cands as [|a cands IH]; intros w Hwf Hnd Hall.
  { exists w. split_and!; try done; simpl; lia. }
  apply NoDup_cons in Hnd as [Ha Hnd].
  apply Forall_cons in Hall as [(r & Hr & Hk & Hts) Hall].
  assert (Hnew :
    r ∉ contents (heap w) (anomaly_history (dashboard_data w))).
  { apply not_in_contents; [by destruct Hwf | done]. }
  pose proof (poll_candidate_new wall link_up _ _ _ Hwf Hr Hk Hnew)
    as Hrun.
  simpl in Hrun.
  match type of Hrun with _ = (_, ?w1) =>
    destruct (IH w1) as (w' & Hrest & Hticks & Htraf & Hs) end.
  - by apply (wf_after_add_anomaly wall w a r).
  - done.
  - simpl. rewrite Forall_forall in Hall. apply Forall_forall.
    intros b Hb. destruct (Hall b Hb) as (r' & Hr' & Hk' & Hts').
    exists r'. split; [|done].
    rewrite list_lookup_insert_ne; [done|]. intros ->. done.
  - exists w'. split_and!.
    + rewrite for_each_cons. by erewrite run_bind_ok by exact Hrun.
    + rewrite Hticks. simpl. lia.
    + by rewrite Htraf.
    + rewrite Hs. by apply (strip_after_add_anomaly wall).
Qed.

(** A candidate that is not well keyed stops the loop with the
    [TypeError] of [add_anomaly]. *)
Lemma for_each_poll_candidate_raises cands w :
  wf w -> NoDup cands ->
  Forall (fun a => exists r, heap w !! a = Some r /\
                             r !! "timestamp" = None) cands ->
  ~ Forall (well_keyed_at (heap w)) cands ->
  fst (for_each cands (poll_candidate wall link_up) w) = Raise TypeError.
Proof.
  revert w. induction cands as [|a cands IH]; intros w Hwf Hnd Hall Hill.
  { destruct Hill. constructor. }
  apply NoDup_cons in Hnd as [Ha Hnd].
  apply Forall_cons in Hall as [(r & Hr & Hts) Hall].
  assert (Hnew :
    r ∉ contents (heap w) (anomaly_history (dashboard_data w))).
  { apply not_in_contents; [by destruct Hwf | done]. }
  rewrite for_each_cons.
  destruct (decide (well_keyed r)) as [Hk|Hk].
  - pose proof (poll_candidate_new wall link_up _ _ _ Hwf Hr Hk Hnew)
      as Hrun.
    simpl in Hrun. erewrite run_bind_ok by exact Hrun.
    apply IH.
    + by apply (wf_after_add_anomaly wall w a r).
    + done.
    + simpl. rewrite Forall_forall in Hall. apply Forall_forall.
      intros b Hb. destruct (Hall b Hb) as (r' & Hr' & Hts').
      exists r'. split; [|done].
      rewrite list_lookup_insert_ne; [done|]. intros ->. done.
    + simpl. intros Hwk. apply Hill. constructor.
      * unfold well_keyed_at. by rewrite Hr.
      * rewrite Forall_forall in Hwk. apply Forall_forall.
        intros b Hb. specialize (Hwk b Hb). unfold well_keyed_at in *.
        rewrite list_lookup_insert_ne in Hwk; [done|]. intros ->. done.
  - erewrite run_bind_raise; [done|].
    by apply (poll_candidate_ill_keyed wall link_up w a r).
Qed.

(** X12: one poll cycle never raises, and on a status other than 200 it
    does nothing.  With no observer connected, on a response with status
    200 whose records carry no timestamp field, it sends nothing; when
    the [src_ip] and [protocol] of every record are hashable it reads
    the clock three times per record and once more for the traffic
    sample it appends, which counts the records plus 100 as total
    requests and the records whose [result] is -1 as anomalies; when
    some record has an unhashable [src_ip] or [protocol] the cycle is
    cut short and appends no traffic sample. *)
Theorem poll_cycle_traffic_sample
  (w : World) (response : option (list record)) (payload : list record) :
  reachable wall link_up w ->
  active_connections (manager w) = [] ->
  Forall (fun r : record => r !! "timestamp" = None) payload ->
  let w' := snd (poll_cycle wall link_up (Some payload) w) in
  let total := (Z.of_nat (length payload) + 100)%Z in
  let anomalies := Z.of_nat (length (filter flagged payload)) in
  fst (poll_cycle wall link_up response w) = Ok tt /\
  poll_cycle wall link_up None w = (Ok tt, w) /\
  wire w' = wire w /\
  (Forall well_keyed payload ->
     ticks w' = ticks w + 3 * length payload + 1 /\
     traffic_stats (dashboard_data w')
     = deque_append 100
         (mkTrafficSample (wall (ticks w + 3 * length payload))
                          total anomalies (total - anomalies))
         (traffic_stats (dashboard_data w))) /\
  (~ Forall well_keyed payload ->
     traffic_stats (dashboard_data w')
     = traffic_stats (dashboard_data w)) /\
  (0 <= anomalies <= Z.of_nat (length payload))%Z.
Proof.
  intros Hreach Hlive Hpay w' total anomalies.
  pose proof (reachable_wf _ _ _ Hreach) as Hwf.
  split.
  { unfold poll_cycle, try_except.
    by destruct (match response with
                 | Some p => poll_body wall link_up p
                 | None => ret tt
                 end w) as [[[]|e] w0]. }
  split; [done|].
  split.
  { by destruct (preserves_quiet_poll_cycle (wire w) (Some payload) w). }
  assert (Hcount : (0 <= anomalies <= Z.of_nat (length payload))%Z).
  { subst anomalies. pose proof (length_filter flagged payload). lia. }
  set (n := length (heap w)).
  set (w0 := with_heap (fun h => h ++ payload) w).
  assert (Hwf0 : wf w0).
  { pose proof (preserves_map_m wf alloc payload preserves_wf_alloc w Hwf)
      as Hw0.
    by rewrite map_m_alloc_run in Hw0. }
  assert (Hlook : forall a, a ∈ seq n (length payload) ->
    exists r, payload !! (a - n) = Some r /\ heap w0 !! a = Some r /\
              r !! "timestamp" = None).
  { intros a Ha. apply elem_of_seq in Ha as [Hlo Hhi].
    rewrite Forall_forall in Hpay.
    destruct (lookup_lt_is_Some_2 payload (a - n)) as [r Hr]; [lia|].
    exists r. split_and!; [done| |].
    - simpl. rewrite lookup_app_r by (subst n; lia). done.
    - apply Hpay. by eapply list_elem_of_lookup_2. }
  split; [|split; [|exact Hcount]].
  - intros Hkeys. subst w'. rewrite snd_poll_cycle. unfold poll_body.
    erewrite run_bind_ok by apply map_m_alloc_run.
    fold n w0.
    destruct (for_each_poll_candidate_clock (seq n (length payload)) w0)
      as (w1 & Hrun & Hticks & Htraf & Hs).
    { done. }
    { apply NoDup_seq. }
    { apply Forall_forall. intros a Ha.
      destruct (Hlook a Ha) as (r & Hp & Hr & Hts).
      exists r. split_and!; try done.
      rewrite Forall_forall in Hkeys. apply Hkeys.
      by eapply list_elem_of_lookup_2. }
    erewrite run_bind_ok by exact Hrun.
    assert (Hobj : forall i x, payload !! i = Some x ->
      exists r', heap w1 !! (n + i) = Some r' /\
                 delete "timestamp" r' = x).
    { intros i x Hx.
      assert (Hl : (delete "timestamp" <$> heap w1) !! (n + i) = Some x).
      { rewrite Hs. subst w0. simpl. rewrite fmap_app.
        rewrite lookup_app_r by (rewrite length_fmap; subst n; lia).
        rewrite length_fmap. replace (n + i - length (heap w)) with i
          by (subst n; lia).
        rewrite list_lookup_fmap, Hx. simpl. f_equal.
        apply delete_id. rewrite Forall_forall in Hpay.
        apply Hpay. by eapply list_elem_of_lookup_2. }
      rewrite list_lookup_fmap in Hl.
      destruct (heap w1 !! (n + i)) as [r'|]; [|done].
      exists r'. split; [done|]. by injection Hl. }
    erewrite run_bind_ok.
    2: { apply (filter_m_pure
                  (fun a => flagged (default ∅ (heap w1 !! a)))).
         apply Forall_forall. intros a Ha.
         apply elem_of_seq in Ha as [Hlo Hhi].
         destruct (lookup_lt_is_Some_2 payload (a - n)) as [x Hx]; [lia|].
         destruct (Hobj _ _ Hx) as (r' & Hr' & _).
         replace (n + (a - n)) with a in Hr' by lia.
         unfold dict_get.
         erewrite run_bind_ok.
         2: { erewrite run_bind_ok by by apply run_deref. apply run_ret. }
         rewrite run_ret, Hr'. done. }
    rewrite add_traffic_data_run. cbn [snd ticks tick with_data].
    rewrite Hticks, length_seq. subst w0. cbn [ticks with_heap].
    split; [lia|].
    cbn [dashboard_data with_data with_traffic_stats traffic_stats tick].
    rewrite Htraf. cbn [dashboard_data with_heap].
    rewrite (filter_seq_length
               (fun a => flagged (default ∅ (heap w1 !! a)))
               flagged payload n).
    { done. }
    intros i x Hx. destruct (Hobj _ _ Hx) as (r' & Hr' & Hdel).
    rewrite Hr'. simpl. unfold flagged.
    by rewrite <- Hdel, lookup_delete_ne.
  - intros Hkeys. subst w'. rewrite snd_poll_cycle. unfold poll_body.
    erewrite run_bind_ok by apply map_m_alloc_run.
    fold n w0.
    pose proof (for_each_poll_candidate_raises
                  (seq n (length payload)) w0 Hwf0 (NoDup_seq _ _)) as Hraise.
    pose proof (preserves_for_each
                  (fun w1 => traffic_stats (dashboard_data w1)
                             = traffic_stats (dashboard_data w))
                  (seq n (length payload)) (poll_candidate wall link_up)
                  (fun a => preserves_traffic_poll_candidate wall link_up
                              (fun t => t = traffic_stats (dashboard_data w))
                              a)
                  w0 eq_refl) as Htraf.
    rewrite run_bind.
    destruct (for_each (seq n (length payload))
                       (poll_candidate wall link_up) w0) as [[[]|e] w1].
    + exfalso. cbn [fst] in Hraise.
      assert (Raise TypeError = Ok tt :> Result unit); [|done].
      symmetry. apply Hraise.
      * apply Forall_forall. intros a Ha.
        destruct (Hlook a Ha) as (r & _ & Hr & Hts). eauto.
      * intros Hwk. apply Hkeys. apply Forall_lookup. intros i x Hx.
        rewrite Forall_forall in Hwk.
        assert (Hin : n + i ∈ seq n (length payload)).
        { apply elem_of_seq. apply lookup_lt_Some in Hx. lia. }
        specialize (Hwk _ Hin). unfold well_keyed_at in Hwk.
        destruct (Hlook _ Hin) as (r & Hp & Hr & _).
        replace (n + i - n) with i in Hp by lia.
        rewrite Hr in Hwk. congruence.
    + exact Htraf.
Qed.
End Traffic.

Section Counter_frame.
Variable wall : nat -> Z.

(** X3: on a record whose [src_ip] and [protocol] are hashable,
    [add_anomaly] returns after three clock readings: the first is the
    timestamp it stores in the record, the second the [last_seen] of the
    [src_ip] entry, whose count it raises by 1, and the hour of the
    third names the hour entry it raises by 1, as it does the entry of
    the [protocol]; a missing entry starts from 0.  With an unhashable
    [src_ip] it raises [TypeError] after one reading and changes no
    counter; with an unhashable [protocol] it raises after two, with
    the [src_ip] entry updated and no other.  In every case the record
    is stamped with the first reading, no entry of another key changes,
    and the traffic samples, the connections, the frames sent and every
    other dict object stay as they were. *)
Theorem add_anomaly_counter_frame (w : World) (a : loc) (r : record) :
  heap w !! a = Some r ->
  let d := dashboard_data w in
  let w' := snd (add_anomaly wall a w) in
  let d' := dashboard_data w' in
  let src_ip := default (VStr "Unknown") (r !! "src_ip") in
  let protocol := default (VStr "Unknown") (r !! "protocol") in
  let hour := hour_bucket (wall (2 + ticks w)) in
  let seen :=
    mkIPStat
      (count (default (mkIPStat 0 None) (od_get src_ip (ip_stats d))) + 1)
      (Some (wall (1 + ticks w))) in
  (well_keyed r ->
     fst (add_anomaly wall a w) = Ok tt /\
     ticks w' = 3 + ticks w /\
     od_get src_ip (ip_stats d') = Some seen /\
     od_get protocol (protocol_stats d')
     = Some (default 0 (od_get protocol (protocol_stats d)) + 1)%Z /\
     od_get hour (hourly_stats d')
     = Some (default 0 (od_get hour (hourly_stats d)) + 1)%Z) /\
  (hashable src_ip = false ->
     fst (add_anomaly wall a w) = Raise TypeError /\
     ticks w' = 1 + ticks w /\
     ip_stats d' = ip_stats d /\
     protocol_stats d' = protocol_stats d /\
     hourly_stats d' = hourly_stats d) /\
  (hashable src_ip = true -> hashable protocol = false ->
     fst (add_anomaly wall a w) = Raise TypeError /\
     ticks w' = 2 + ticks w /\
     od_get src_ip (ip_stats d') = Some seen /\
     protocol_stats d' = protocol_stats d /\
     hourly_stats d' = hourly_stats d) /\
  heap w' !! a = Some (stamp (wall (ticks w)) r) /\
  (forall k, k ≠ src_ip -> od_get k (ip_stats d') = od_get k (ip_stats d)) /\
  (forall k, k ≠ protocol ->
     od_get k (protocol_stats d') = od_get k (protocol_stats d)) /\
  (forall h, h ≠ hour ->
     od_get h (hourly_stats d') = od_get h (hourly_stats d)) /\
  traffic_stats d' = traffic_stats d /\
  manager w' = manager w /\
  wire w' = wire w /\
  (forall b, b ≠ a -> heap w' !! b = heap w !! b).
Proof.
  intros Hr d w' d' src_ip protocol hour seen. subst w' d'.
  assert (Hlt : a < length (heap w)) by by eapply lookup_lt_Some.
  rewrite (add_anomaly_outcome _ _ _ _ Hr). fold src_ip protocol.
  unfold well_keyed. fold src_ip protocol.
  destruct (hashable src_ip) eqn:Hs; [destruct (hashable protocol) eqn:Hp|];
    cbn [fst snd]; simpl.
  - split_and!; try done.
    + intros _. split_and!; try done.
      * by rewrite dd_alter_compose, od_get_dd_alter_eq.
      * by rewrite od_get_dd_alter_eq.
      * by rewrite od_get_dd_alter_eq.
    + by apply list_lookup_insert_eq.
    + intros k Hk. by rewrite !od_get_dd_alter_ne.
    + intros k Hk. by rewrite od_get_dd_alter_ne.
    + intros h Hh. by rewrite od_get_dd_alter_ne.
    + intros b Hb. by rewrite list_lookup_insert_ne.
  - split_and!; try done.
    + by intros [_ []].
    + intros _ _. split_and!; try done.
      by rewrite dd_alter_compose, od_get_dd_alter_eq.
    + by apply list_lookup_insert_eq.
    + intros k Hk. by rewrite !od_get_dd_alter_ne.
    + intros b Hb. by rewrite list_lookup_insert_ne.
  - split_and!; try done.
    + by intros [[] _].
    + by apply list_lookup_insert_eq.
    + intros b Hb. by rewrite list_lookup_insert_ne.
Qed.
End Counter_frame.

(** ** Further sample runs *)

Lemma counters_agree_with_history_witness :
  Z.of_nat (length (anomaly_history (dashboard_data ranked_ips)))
  = Z.min 1000 (total_of count (ip_stats (dashboard_data ranked_ips))).
Proof.
  destruct (counters_agree_with_history sample_wall sample_link ranked_ips)
    as (_ & _ & _ & Hexact).
  { apply reachable_run_ops, reachable_init. }
  apply Hexact. apply (bool_decide_unpack _). by vm_compute.
Defined.

Lemma counters_entries_well_formed_witness :
  NoDup (map fst (ip_stats (dashboard_data ranked_ips))).
Proof.
  apply (counters_entries_well_formed sample_wall sample_link ranked_ips).
  apply reachable_run_ops, reachable_init.
Defined.

Lemma add_anomaly_counter_frame_witness :
  ticks (snd (add_anomaly sample_wall 0 empty_candidate))
  = 3 + ticks empty_candidate.
Proof.
  assert (Hr : heap empty_candidate !! 0 = Some (∅ : record))
    by (by vm_compute).
  destruct (add_anomaly_counter_frame sample_wall empty_candidate 0 ∅ Hr)
    as [Hok _].
  apply Hok. apply (bool_decide_unpack _). by vm_compute.
Defined.

Lemma connect_disconnect_round_trip_witness :
  snd (disconnect 9 (snd (connect true 9 three_observers)))
  = three_observers.
Proof.
  apply (connect_disconnect_round_trip three_observers 9).
  apply (bool_decide_unpack _). by vm_compute.
Defined.


Lemma get_recent_anomalies_edge_limits_witness :
  exists recent,
    get_recent_anomalies (-1) two_events = (Ok (recent, 2), two_events) /\
    recent = [1].
Proof.
  destruct (get_recent_anomalies_edge_limits two_events (-1))
    as (recent & Hrun & _ & Hneg & _).
  exists recent. split; [exact Hrun|]. rewrite Hneg by lia. by vm_compute.
Defined.

Lemma get_top_ips_entries_witness :
  exists tops,
    get_top_ips (-1) ranked_ips = (Ok tops, ranked_ips) /\ length tops = 2.
Proof.
  destruct (get_top_ips_entries sample_wall sample_link ranked_ips (-1))
    as (tops & Hrun & _ & _ & _ & _ & Hneg & _).
  { apply reachable_run_ops, reachable_init. }
  exists tops. split; [done|]. rewrite Hneg by lia. by vm_compute.
Defined.

Lemma get_dashboard_stats_windows_witness :
  exists snap,
    get_dashboard_stats stats_wall two_events = (Ok snap, tick two_events) /\
    recent_anomalies snap = [0; 1].
Proof.
  destruct (get_dashboard_stats_windows stats_wall sample_link two_events)
    as (snap & Hrun & _ & _ & _ & Hrecent & _).
  { apply reachable_run_ops, reachable_init. }
  exists snap. split; [done|]. rewrite Hrecent. by vm_compute.
Defined.

Lemma poll_candidate_skips_exact_copy_witness :
  poll_candidate sample_wall sample_link 1 echoed_event
  = (Ok tt, echoed_event).
Proof.
  apply (poll_candidate_skips_exact_copy sample_wall sample_link
           echoed_event 1 0 (stamp 0 sample_record)).
  - apply reachable_run_ops, reachable_init.
  - by vm_compute.
  - apply (bool_decide_unpack _). by vm_compute.
  - by vm_compute.
Defined.

Lemma add_anomaly_same_object_twice_witness :
  ingested_at
    (heap (snd (add_anomaly sample_wall 0
                  (snd (add_anomaly sample_wall 0 empty_candidate))))) 0
  = Some 3000000%Z.
Proof.
  assert (Hr : heap empty_candidate !! 0 = Some (∅ : record))
    by (by vm_compute).
  destruct (add_anomaly_same_object_twice sample_wall sample_link
              empty_candidate 0 ∅) as (_ & H2 & _); [|done|].
  { apply reachable_run_ops, reachable_init. }
  destruct H2 as [H2 _]; [by vm_compute|].
  rewrite H2. by vm_compute.
Defined.

Lemma traffic_stats_keeps_last_100_witness :
  length
    (traffic_stats
       (dashboard_data
          (snd (for_each (replicate 150 (7, 2)%Z)
                  (fun '(t, n) => add_traffic_data sample_wall t n)
                  World_init))))
  = 100.
Proof.
  destruct (traffic_stats_keeps_last_100 sample_wall sample_link World_init
              (replicate 150 (7, 2)%Z)) as (_ & _ & Hlen & _).
  { apply reachable_init. }
  rewrite Hlen. by vm_compute.
Defined.

Lemma poll_cycle_traffic_sample_witness :
  traffic_stats
    (dashboard_data
       (snd (poll_cycle sample_wall sample_link
               (Some [sample_record; record_from "A"]) World_init)))
  = [mkTrafficSample 6000000 102 1 101].
Proof.
  destruct (poll_cycle_traffic_sample sample_wall sample_link World_init None
              [sample_record; record_from "A"])
    as (_ & _ & _ & Hok & _).
  { apply reachable_init. }
  { done. }
  { repeat constructor; by vm_compute. }
  destruct Hok as [_ Htraf].
  { apply (bool_decide_unpack _). by vm_compute. }
  rewrite Htraf. by vm_compute.
Defined.
